(** * PluginManager: enabled state and derived views of the plugin list

    A shallow embedding of [src/core/plugins/PluginManager.ts].

    The class keeps two private fields: [plugins], a JavaScript array of
    plugin records, and [enabledPluginIds], a [Set<string>].  The records
    are mutated in place ([plugin.enabled = ...]) and they are shared with
    whoever else holds them (the storage that produced them, the callers of
    [getPlugins]).  The embedding therefore keeps an explicit store: plugin
    records and arrays of plugin references live at addresses, and every
    method is a function from store to store. *)

From Stdlib Require Import String ZArith List Sorted Permutation Lia.
From Stdlib Require OrderedTypeEx.
From stdpp Require Import base option list strings sorting.

Local Open Scope string_scope.
Local Open Scope nat_scope.

(** ** Types of [core/types] *)

(** Modelled from the spec: the declaration of [ClaudianPlugin] lives in
    [core/types], which is not part of the sources at hand.  The status
    values are the three the spec lists; the unit tests use all three. *)
Inductive PluginStatus : Type :=
  | available
  | unavailable
  | invalid_manifest.

(** Modelled from the spec: the provenance tag of a plugin
    ([user] or [project]); the manager never reads it. *)
Inductive PluginScope : Type :=
  | user
  | project.

(** Modelled from the spec: the fields are those of the spec's Plugin and
    of [createMockPlugin] in the unit tests. *)
Record ClaudianPlugin : Type := mkPlugin {
  id : string;
  name : string;
  description : string;
  version : string;
  installPath : string;
  pluginPath : string;
  scope : PluginScope;
  enabled : bool;
  status : PluginStatus
}.

(** Modelled from the spec: [SdkPluginConfig] is [{type: 'local', path}]. *)
Inductive SdkPluginType : Type := local.

Record SdkPluginConfig : Type := mkConfig {
  type : SdkPluginType;
  path : string
}.

(** The element type of [getPluginCommandPaths]' result. *)
Record PluginCommandPath : Type := mkCommandPath {
  pluginName : string;
  commandsPath : string
}.

Definition status_eqb (a b : PluginStatus) : bool :=
  match a, b with
  | available, available => true
  | unavailable, unavailable => true
  | invalid_manifest, invalid_manifest => true
  | _, _ => false
  end.

(** [plugin.enabled = b] on a record. *)
Definition with_enabled (b : bool) (p : ClaudianPlugin) : ClaudianPlugin :=
  mkPlugin (id p) (name p) (description p) (version p) (installPath p)
           (pluginPath p) (scope p) b (status p).

(** ** JavaScript [Set<string>]

    A [Set] iterates in insertion order, so it is kept as the list of its
    elements in that order; [Array.from] returns that list. *)
Module JsSet.

Definition t : Type := list string.

Definition empty : t := [].

Definition has (s : t) (x : string) : bool :=
  existsb (String.eqb x) s.

Definition add (x : string) (s : t) : t :=
  if has s x then s else (s ++ [x])%list.

Definition delete (x : string) (s : t) : t :=
  List.filter (fun y => negb (String.eqb x y)) s.

(** [new Set(ids)] inserts the elements of [ids] from left to right. *)
Definition of_array (ids : list string) : t :=
  fold_left (fun s x => add x s) ids empty.

(** [Array.from(set)] *)
Definition to_array (s : t) : list string := s.

End JsSet.

(** ** The store *)

(** Addresses of plugin records and of arrays of plugin references. *)
Abbreviation oref := nat (only parsing).
Abbreviation aref := nat (only parsing).

(** The first two fields are the part of the JavaScript heap the class can
    reach: the plugin records, and the arrays whose elements are references
    to them.  The last two are the private fields of the manager:
    [this.plugins] is a reference to an array, [this.enabledPluginIds] a
    set that the class never hands out (every method returns a copy made by
    [Array.from]), so it is kept by value. *)
Record State : Type := mkState {
  objects : list ClaudianPlugin;
  arrays : list (list oref);
  plugins : aref;
  enabledPluginIds : JsSet.t
}.

Definition set_objects (o : list ClaudianPlugin) (s : State) : State :=
  mkState o (arrays s) (plugins s) (enabledPluginIds s).
Definition set_arrays (a : list (list oref)) (s : State) : State :=
  mkState (objects s) a (plugins s) (enabledPluginIds s).
Definition set_enabledPluginIds (e : JsSet.t) (s : State) : State :=
  mkState (objects s) (arrays s) (plugins s) e.

(** Reading an array; an address that was never allocated reads as empty. *)
Definition array_get (s : State) (a : aref) : list oref :=
  default [] (arrays s !! a).

(** Allocation of a new array: it gets the next free address. *)
Definition array_new (l : list oref) (s : State) : aref * State :=
  (length (arrays s), set_arrays (arrays s ++ [l])%list s).

(** Overwriting the contents of an array in place. *)
Definition array_set (a : aref) (l : list oref) (s : State) : State :=
  set_arrays (<[a := l]> (arrays s)) s.

(** A callback [f] applied to the record at [r]. *)
Definition holds (s : State) (f : ClaudianPlugin -> bool) (r : oref) : bool :=
  match objects s !! r with
  | Some p => f p
  | None => false
  end.

(** The records an array refers to, in array order. *)
Fixpoint deref (s : State) (rs : list oref) : list ClaudianPlugin :=
  match rs with
  | [] => []
  | r :: rs' =>
      match objects s !! r with
      | Some p => p :: deref s rs'
      | None => deref s rs'
      end
  end.

(** [arr.filter(f)]: a new array with the references that satisfy [f]. *)
Definition Array_filter (f : ClaudianPlugin -> bool) (a : aref) (s : State)
  : aref * State :=
  array_new (List.filter (holds s f) (array_get s a)) s.

(** [arr.find(f)]: the first element that satisfies [f], or [undefined]. *)
Definition Array_find (f : ClaudianPlugin -> bool) (a : aref) (s : State)
  : option oref :=
  List.find (holds s f) (array_get s a).

(** [arr.map(f)] for an [f] that builds a string or a new record: the result
    holds no reference into the store and is returned by value. *)
Definition Array_map {B : Type} (f : ClaudianPlugin -> B) (a : aref) (s : State)
  : list B :=
  List.map f (deref s (array_get s a)).

(** [[...arr]]: a new array with the same elements. *)
Definition Array_spread (a : aref) (s : State) : aref * State :=
  array_new (array_get s a) s.

(** [plugin.enabled = b] for the record at [r]. *)
Definition write_enabled (r : oref) (b : bool) (s : State) : State :=
  set_objects (alter (with_enabled b) r (objects s)) s.

(** ** [Array.prototype.sort]

    ECMAScript requires the sort to be stable; with a consistent comparator
    its result is the one of any stable sort.  [cmp a b <= 0] keeps [a]
    before [b]. *)
Section Sort.
Context {A : Type} (cmp : A -> A -> Z).

Fixpoint sort_insert (x : A) (l : list A) : list A :=
  match l with
  | [] => [x]
  | y :: l' => if (cmp x y <=? 0)%Z then x :: l else y :: sort_insert x l'
  end.

Fixpoint stable_sort (l : list A) : list A :=
  match l with
  | [] => []
  | x :: l' => sort_insert x (stable_sort l')
  end.
End Sort.

(** The comparator [(a, b) => a.id.localeCompare(b.id)] on references. *)
Definition compare_at (s : State) (cmp : string -> string -> Z) (r1 r2 : oref) : Z :=
  match objects s !! r1, objects s !! r2 with
  | Some a, Some b => cmp (id a) (id b)
  | _, _ => 0%Z
  end.

(** [arr.sort(cmp)] sorts in place and returns the same array. *)
Definition Array_sort (cmp : string -> string -> Z) (a : aref) (s : State)
  : aref * State :=
  (a, array_set a (stable_sort (compare_at s cmp) (array_get s a)) s).

(** ** The registry

    [this.storage.loadPlugins()] is a call into the registry, which is not
    part of the class.  It may build new records and arrays or hand out the
    ones it handed out before; what the manager sees is the store as the
    call leaves it, together with the array the call returns. *)
Record StorageAnswer : Type := mkAnswer {
  answer_objects : list ClaudianPlugin;
  answer_arrays : list (list oref);
  answer_result : aref
}.

(** ** The class *)

(** [private plugins: ClaudianPlugin[] = []] allocates an empty array and
    [private enabledPluginIds = new Set()] an empty set, next to whatever the
    store already holds. *)
Definition new_PluginManager (o : list ClaudianPlugin) (a : list (list oref)) : State :=
  mkState o (a ++ [[]])%list (length a) JsSet.empty.

(** The body of the loop
    [for (const plugin of this.plugins) plugin.enabled = this.enabledPluginIds.has(plugin.id)]. *)
Definition apply_enabled_at (s : State) (plugin : oref) : State :=
  match objects s !! plugin with
  | Some p => write_enabled plugin (JsSet.has (enabledPluginIds s) (id p)) s
  | None => s
  end.

(** The loop itself, shared by [setEnabledPluginIds] and [loadPlugins]. *)
Definition apply_enabled_state (s : State) : State :=
  fold_left apply_enabled_at (array_get s (plugins s)) s.

(** The callback [plugin => plugin.enabled && plugin.status === 'available']. *)
Definition is_active (plugin : ClaudianPlugin) : bool :=
  enabled plugin && status_eqb (status plugin) available.

(** [this.plugins.filter(...)]: the result is a new array. *)
Definition getActivePlugins (s : State) : aref * State :=
  Array_filter is_active (plugins s) s.

(** [this.enabledPluginIds = new Set(ids)], then the loop. *)
Definition setEnabledPluginIds (ids : list string) (s : State) : State :=
  apply_enabled_state (set_enabledPluginIds (JsSet.of_array ids) s).

(** [this.plugins = this.storage.loadPlugins()], then the loop.  The store
    is the one the registry's call leaves; the set is the manager's own. *)
Definition loadPlugins (answer : StorageAnswer) (s : State) : State :=
  apply_enabled_state
    (mkState (answer_objects answer) (answer_arrays answer)
             (answer_result answer) (enabledPluginIds s)).

(** [return [...this.plugins]] *)
Definition getPlugins (s : State) : aref * State :=
  Array_spread (plugins s) s.

Definition getActivePluginConfigs (s : State) : list SdkPluginConfig * State :=
  let '(active, s1) := getActivePlugins s in
  (Array_map (fun plugin => mkConfig local (pluginPath plugin)) active s1, s1).

Definition getUnavailableEnabledPlugins (s : State) : list string * State :=
  let '(found, s1) :=
    Array_filter
      (fun plugin => enabled plugin && negb (status_eqb (status plugin) available))
      (plugins s) s in
  (Array_map id found s1, s1).

Definition hasEnabledPlugins (s : State) : bool * State :=
  let '(active, s1) := getActivePlugins s in
  (0 <? length (array_get s1 active), s1).

Definition getEnabledCount (s : State) : nat * State :=
  let '(active, s1) := getActivePlugins s in
  (length (array_get s1 active), s1).

(** [this.plugins.find((p) => p.id === pluginId)] *)
Definition find_by_id (pluginId : string) (s : State) : option oref :=
  Array_find (fun p => String.eqb (id p) pluginId) (plugins s) s.

(** The three incremental calls read [plugin.enabled] of the record [find]
    returned, change the set and write that record's flag; each returns
    [Array.from(this.enabledPluginIds)]. *)
Definition togglePlugin (pluginId : string) (s : State) : list string * State :=
  match find_by_id pluginId s with
  | None => (JsSet.to_array (enabledPluginIds s), s)
  | Some plugin =>
      let s' :=
        if holds s enabled plugin
        then write_enabled plugin false
               (set_enabledPluginIds (JsSet.delete pluginId (enabledPluginIds s)) s)
        else write_enabled plugin true
               (set_enabledPluginIds (JsSet.add pluginId (enabledPluginIds s)) s) in
      (JsSet.to_array (enabledPluginIds s'), s')
  end.

Definition enablePlugin (pluginId : string) (s : State) : list string * State :=
  let s' :=
    match find_by_id pluginId s with
    | Some plugin =>
        if negb (holds s enabled plugin)
        then write_enabled plugin true
               (set_enabledPluginIds (JsSet.add pluginId (enabledPluginIds s)) s)
        else s
    | None => s
    end in
  (JsSet.to_array (enabledPluginIds s'), s').

Definition disablePlugin (pluginId : string) (s : State) : list string * State :=
  let s' :=
    match find_by_id pluginId s with
    | Some plugin =>
        if holds s enabled plugin
        then write_enabled plugin false
               (set_enabledPluginIds (JsSet.delete pluginId (enabledPluginIds s)) s)
        else s
    | None => s
    end in
  (JsSet.to_array (enabledPluginIds s'), s').

Definition hasPlugins (s : State) : bool * State :=
  (0 <? length (array_get s (plugins s)), s).

Definition getPluginCommandPaths (s : State) : list PluginCommandPath * State :=
  let '(active, s1) := getActivePlugins s in
  (Array_map (fun plugin => mkCommandPath (name plugin) (installPath plugin)) active s1, s1).

(** The template literal [`${plugin.id}:${plugin.pluginPath}`]. *)
Definition key_entry (plugin : ClaudianPlugin) : string :=
  (id plugin ++ ":" ++ pluginPath plugin)%string.

(** [String.prototype.localeCompare] belongs to the platform: its result
    depends on the collation of the default locale.  Everything that sorts
    takes it as a parameter. *)
Section Collation.
Variable localeCompare : string -> string -> Z.

Definition getPluginsKey (s : State) : string * State :=
  let '(active, s1) := getActivePlugins s in
  let '(activePlugins, s2) := Array_sort localeCompare active s1 in
  if length (array_get s2 activePlugins) =? 0
  then ("", s2)
  else (String.concat "|" (Array_map key_entry activePlugins s2), s2).

(** ** Sequences of calls *)

Inductive Call : Type :=
  | call_setEnabledPluginIds (ids : list string)
  | call_loadPlugins (answer : StorageAnswer)
  | call_getPlugins
  | call_getActivePluginConfigs
  | call_getUnavailableEnabledPlugins
  | call_hasEnabledPlugins
  | call_getEnabledCount
  | call_getPluginsKey
  | call_togglePlugin (pluginId : string)
  | call_enablePlugin (pluginId : string)
  | call_disablePlugin (pluginId : string)
  | call_hasPlugins
  | call_getPluginCommandPaths.

(** The store after a call has returned. *)
Definition exec (s : State) (c : Call) : State :=
  match c with
  | call_setEnabledPluginIds ids => setEnabledPluginIds ids s
  | call_loadPlugins answer => loadPlugins answer s
  | call_getPlugins => snd (getPlugins s)
  | call_getActivePluginConfigs => snd (getActivePluginConfigs s)
  | call_getUnavailableEnabledPlugins => snd (getUnavailableEnabledPlugins s)
  | call_hasEnabledPlugins => snd (hasEnabledPlugins s)
  | call_getEnabledCount => snd (getEnabledCount s)
  | call_getPluginsKey => snd (getPluginsKey s)
  | call_togglePlugin pluginId => snd (togglePlugin pluginId s)
  | call_enablePlugin pluginId => snd (enablePlugin pluginId s)
  | call_disablePlugin pluginId => snd (disablePlugin pluginId s)
  | call_hasPlugins => snd (hasPlugins s)
  | call_getPluginCommandPaths => snd (getPluginCommandPaths s)
  end.

Definition run (calls : list Call) (s : State) : State :=
  fold_left exec calls s.

End Collation.

(** The calls that only read. *)
Definition is_query (c : Call) : bool :=
  match c with
  | call_setEnabledPluginIds _ | call_loadPlugins _
  | call_togglePlugin _ | call_enablePlugin _ | call_disablePlugin _ => false
  | _ => true
  end.

(** ** The manager's view of the store *)

(** The references held by [this.plugins], and the records behind them. *)
Definition stored (s : State) : list oref := array_get s (plugins s).
Definition loaded (s : State) : list ClaudianPlugin := deref s (stored s).

(** The data model's invariant on a plugin list: identifiers are unique. *)
Definition unique_ids (ps : list ClaudianPlugin) : Prop :=
  NoDup (List.map id ps).

(** Each loaded plugin's flag agrees with the Enabled-ID Set. *)
Definition consistent (s : State) : Prop :=
  Forall (fun p => enabled p = JsSet.has (enabledPluginIds s) (id p)) (loaded s).

(** What a call that only reads may still do: allocate arrays.  Records,
    fields and the arrays that existed before are as they were. *)
Definition unchanged (s s' : State) : Prop :=
  objects s' = objects s
  /\ plugins s' = plugins s
  /\ enabledPluginIds s' = enabledPluginIds s
  /\ length (arrays s) <= length (arrays s')
  /\ forall a, a < length (arrays s) -> arrays s' !! a = arrays s !! a.

(** What the loop does to one record. *)
Definition restamp (e : JsSet.t) (p : ClaudianPlugin) : ClaudianPlugin :=
  with_enabled (JsSet.has e (id p)) p.

(** The calls that change one plugin: they write the flag of the record
    [find] returns. *)
Definition is_incremental (c : Call) : bool :=
  match c with
  | call_togglePlugin _ | call_enablePlugin _ | call_disablePlugin _ => true
  | _ => false
  end.

(** The plugin list a registry answer carries. *)
Definition answered (answer : StorageAnswer) : list ClaudianPlugin :=
  loaded (mkState (answer_objects answer) (answer_arrays answer)
                  (answer_result answer) JsSet.empty).

(** The registry keeps the data model's invariant: in every list it
    returns, identifiers are unique. *)
Definition registry_unique (c : Call) : Prop :=
  match c with
  | call_loadPlugins answer => unique_ids (answered answer)
  | _ => True
  end.

(** The registry returns an array that exists. *)
Definition registry_allocated (c : Call) : Prop :=
  match c with
  | call_loadPlugins answer => answer_result answer < length (answer_arrays answer)
  | _ => True
  end.

(** The weaker agreement that holds whatever the registry returns: the
    record [find] selects for an identifier agrees with the set. *)
Definition first_consistent (s : State) : Prop :=
  forall x r, find_by_id x s = Some r ->
    holds s enabled r = JsSet.has (enabledPluginIds s) x.

(** ** The key, as the spec words it

    "Take Active Plugins, sort by identifier using a locale-aware string
    comparison, map each to [<identifier>:<manifestPath>], join with [|]."
    These definitions follow that sentence over a plain list of records; the
    theorems compare them with [getPluginsKey]. *)
Section SpecKey.
Variable localeCompare : string -> string -> Z.

Definition spec_activePlugins (ps : list ClaudianPlugin) : list ClaudianPlugin :=
  List.filter (fun p => enabled p && status_eqb (status p) available) ps.

Definition spec_sortByIdentifier (ps : list ClaudianPlugin) : list ClaudianPlugin :=
  stable_sort (fun a b => localeCompare (id a) (id b)) ps.

Definition spec_pluginsKey (ps : list ClaudianPlugin) : string :=
  String.concat "|"
    (List.map (fun p => (id p ++ ":" ++ pluginPath p)%string)
       (spec_sortByIdentifier (spec_activePlugins ps))).

End SpecKey.

(** What [Array.prototype.sort] asks of its comparison function, and what
    [localeCompare] provides: a consistent comparator.  Two different strings
    may compare as equal. *)
Record consistent_comparator (cmp : string -> string -> Z) : Prop := mkConsistentComparator {
  comparator_antisymmetric : forall a b, (cmp a b < 0 <-> 0 < cmp b a)%Z;
  comparator_transitive : forall a b c, (cmp a b <= 0 -> cmp b c <= 0 -> cmp a c <= 0)%Z
}.

(** No two different identifiers of the list compare as equal. *)
Definition no_tied_ids (cmp : string -> string -> Z) (ps : list ClaudianPlugin) : Prop :=
  forall p q, In p ps -> In q ps -> cmp (id p) (id q) = 0%Z -> id p = id q.

(** ** Fixtures of the unit tests *)

(** [createMockPlugin] of [PluginManager.test.ts], with the fields the tests
    override as arguments. *)
Definition createMockPlugin (id' name' installPath' pluginPath' : string)
           (enabled' : bool) (status' : PluginStatus) : ClaudianPlugin :=
  mkPlugin id' name' "A test plugin" "1.0.0" installPath' pluginPath' user
           enabled' status'.

(** [createMockStorage(plugins)]: the records sit at addresses [0], [1], ...
    and the array [plugins] at address [0]; every call of the mock's
    [loadPlugins] returns that same array.  Address [1] is the empty array a
    manager built next allocates for itself. *)
Definition createMockStorage (ps : list ClaudianPlugin) : StorageAnswer :=
  mkAnswer ps [seq 0 (length ps); []] 0.

(** The manager built on that storage: [new PluginManager(storage)]. *)
Definition mock_manager (ps : list ClaudianPlugin) : State :=
  new_PluginManager ps [seq 0 (length ps)].

(** A collation to run the examples with: comparison by code units. *)
Definition codeUnitCompare (a b : string) : Z :=
  match String.compare a b with
  | Lt => (-1)%Z
  | Eq => 0%Z
  | Gt => 1%Z
  end.

(** The first scenario of the spec's testable properties. *)
Definition scenario_plugin : ClaudianPlugin :=
  createMockPlugin "p@m" "P" "/i" "/i/.plugin" false available.

Definition scenario_state : State :=
  run codeUnitCompare
      [ call_loadPlugins (createMockStorage [scenario_plugin]);
        call_setEnabledPluginIds ["p@m"] ]
      (mock_manager [scenario_plugin]).

(** The fixture of the test of [getUnavailableEnabledPlugins]. *)
Definition unavailable_fixture : list ClaudianPlugin :=
  [ createMockPlugin "available-plugin" "Test Plugin" "/path/to/plugin"
      "/path/to/plugin/.claude-plugin" true available;
    createMockPlugin "unavailable-plugin" "Test Plugin" "/path/to/plugin"
      "/path/to/plugin/.claude-plugin" true unavailable;
    createMockPlugin "invalid-plugin" "Test Plugin" "/path/to/plugin"
      "/path/to/plugin/.claude-plugin" true invalid_manifest ].

Definition unavailable_state : State :=
  run codeUnitCompare
      [ call_loadPlugins (createMockStorage unavailable_fixture);
        call_setEnabledPluginIds ["available-plugin"; "unavailable-plugin"; "invalid-plugin"] ]
      (mock_manager unavailable_fixture).

(** A longer session on three plugins, one of each status: enable two
    identifiers, load, toggle, read the key, disable, load again. *)
Definition plugin_a : ClaudianPlugin :=
  createMockPlugin "plugin-a" "Plugin A" "/path/a" "/path/a/.claude-plugin" false available.
Definition plugin_b : ClaudianPlugin :=
  createMockPlugin "plugin-b" "Plugin B" "/path/b" "/path/b/.claude-plugin" true unavailable.
Definition plugin_c : ClaudianPlugin :=
  createMockPlugin "plugin-c" "Plugin C" "/path/c" "/path/c/.claude-plugin" false invalid_manifest.

Definition session : list Call :=
  [ call_setEnabledPluginIds ["plugin-b"; "plugin-a"; "plugin-b"];
    call_loadPlugins (createMockStorage [plugin_b; plugin_a; plugin_c]);
    call_togglePlugin "plugin-c";
    call_getPluginsKey;
    call_disablePlugin "plugin-a";
    call_loadPlugins (createMockStorage [plugin_b; plugin_a; plugin_c]) ].

(** A manager that enabled the identifiers of the examples below and then
    loaded [ps]. *)
Definition loaded_in_order (ps : list ClaudianPlugin) : State :=
  run codeUnitCompare
      [ call_setEnabledPluginIds ["plugin-a"; "plugin-b"; "dup"];
        call_loadPlugins (createMockStorage ps) ]
      (mock_manager ps).

(** The second scenario of the spec: two enabled plugins, loaded as [b],
    [a]. *)
Definition enabled_a : ClaudianPlugin :=
  createMockPlugin "plugin-a" "Plugin A" "/path/to/plugin" "/path/a" true available.
Definition enabled_b : ClaudianPlugin :=
  createMockPlugin "plugin-b" "Plugin B" "/path/to/plugin" "/path/b" true available.

(** A registry that breaks the data model: two records with one identifier,
    the second one unavailable. *)
Definition duplicate_first : ClaudianPlugin :=
  createMockPlugin "dup" "First" "/x" "/x/.claude-plugin" false available.
Definition duplicate_second : ClaudianPlugin :=
  createMockPlugin "dup" "Second" "/y" "/y/.claude-plugin" false unavailable.

(** [loadPlugins] of the two records, then [togglePlugin('dup')]. *)
Definition duplicate_state : State :=
  run codeUnitCompare
      [ call_loadPlugins (createMockStorage [duplicate_first; duplicate_second]);
        call_togglePlugin "dup" ]
      (mock_manager [duplicate_first; duplicate_second]).

(** Two different identifiers that [localeCompare] takes for equal: they
    differ by the control character U+007F, which the collation ignores, so
    ['a'.localeCompare('a\u007f')] is [0]. *)
Definition DEL : Ascii.ascii := Ascii.ascii_of_nat 127.
Definition id_a : string := "a".
Definition id_a_del : string := id_a ++ String DEL EmptyString.

Definition tied_a : ClaudianPlugin :=
  createMockPlugin id_a "A" "/a" "/a/.claude-plugin" true available.
Definition tied_a_del : ClaudianPlugin :=
  createMockPlugin id_a_del "A del" "/d" "/d/.claude-plugin" true available.

(** [setEnabledPluginIds] of both identifiers, then [loadPlugins] of the
    records in the given order. *)
Definition tied_loaded_in_order (ps : list ClaudianPlugin) : State :=
  run codeUnitCompare
      [ call_setEnabledPluginIds [id_a; id_a_del];
        call_loadPlugins (createMockStorage ps) ]
      (mock_manager ps).

(** A comparison that ignores U+007F and compares the rest by code units. *)
Fixpoint strip_del (s : string) : string :=
  match s with
  | EmptyString => EmptyString
  | String c s' =>
      if Ascii.eqb c DEL then strip_del s' else String c (strip_del s')
  end.

Definition delIgnoringCompare (a b : string) : Z :=
  codeUnitCompare (strip_del a) (strip_del b).

(** ** Further notions for the properties of the whole class *)

(** A record with its [enabled] flag blanked: everything the manager is not
    supposed to touch. *)
Definition forget_enabled (p : ClaudianPlugin) : ClaudianPlugin :=
  with_enabled false p.

(** The registry's answer when it hands back the store as it is, with the
    array the manager already holds (what the mock storage of the tests does
    on a second [loadPlugins]). *)
Definition same_array_again (s : State) : StorageAnswer :=
  mkAnswer (objects s) (arrays s) (plugins s).

(** [disablePlugin] for each identifier of a list, as a caller cleaning up
    stale identifiers does. *)
Definition disable_all (ids : list string) (s : State) : State :=
  fold_left (fun s' x => snd (disablePlugin x s')) ids s.

(** Two states show the same active configuration in every view. *)
Definition same_active_views (localeCompare : string -> string -> Z) (s s' : State) : Prop :=
  fst (getActivePluginConfigs s') = fst (getActivePluginConfigs s)
  /\ fst (getPluginCommandPaths s') = fst (getPluginCommandPaths s)
  /\ fst (getEnabledCount s') = fst (getEnabledCount s)
  /\ fst (hasEnabledPlugins s') = fst (hasEnabledPlugins s)
  /\ fst (getPluginsKey localeCompare s') = fst (getPluginsKey localeCompare s).
(** * Properties *)

(** ** Membership in a JavaScript set *)

Lemma has_add (x y : string) (s : JsSet.t) :
  JsSet.has (JsSet.add x s) y = String.eqb y x || JsSet.has s y.
Proof.
  unfold JsSet.add, JsSet.has.
  destruct (existsb (String.eqb x) s) eqn:Hx.
  - destruct (String.eqb_spec y x) as [->|]; [by rewrite Hx | done].
  - rewrite existsb_app. simpl. rewrite orb_false_r. apply orb_comm.
Qed.

Lemma has_delete (x y : string) (s : JsSet.t) :
  JsSet.has (JsSet.delete x s) y = negb (String.eqb y x) && JsSet.has s y.
Proof.
  unfold JsSet.delete, JsSet.has.
  induction s as [|z s IH]; simpl.
  - by rewrite andb_false_r.
  - destruct (String.eqb_spec x z) as [->|Hxz]; simpl.
    + rewrite IH. destruct (String.eqb_spec y z); simpl; done.
    + rewrite IH. destruct (String.eqb_spec y z) as [->|]; simpl.
      * destruct (String.eqb_spec z x); [congruence | done].
      * done.
Qed.

Lemma has_fold_add (ids : list string) (s : JsSet.t) (y : string) :
  JsSet.has (fold_left (fun s x => JsSet.add x s) ids s) y
  = existsb (String.eqb y) ids || JsSet.has s y.
Proof.
  revert s. induction ids as [|x ids IH]; intros s; simpl; [done|].
  rewrite IH, has_add. destruct (String.eqb y x), (existsb (String.eqb y) ids);
    simpl; try done; by destruct (JsSet.has s y).
Qed.

Lemma has_of_array (ids : list string) (y : string) :
  JsSet.has (JsSet.of_array ids) y = existsb (String.eqb y) ids.
Proof. unfold JsSet.of_array. rewrite has_fold_add. simpl. apply orb_false_r. Qed.

Lemma has_true_iff (s : JsSet.t) (y : string) :
  JsSet.has s y = true <-> In y (JsSet.to_array s).
Proof.
  unfold JsSet.has, JsSet.to_array. rewrite existsb_exists. split.
  - intros (z & Hz & Heq). apply String.eqb_eq in Heq. by subst.
  - intros Hy. exists y. split; [done | apply String.eqb_refl].
Qed.

(** ** The enabled-state loop *)


Lemma restamp_idemp (e : JsSet.t) (p : ClaudianPlugin) :
  restamp e (restamp e p) = restamp e p.
Proof. done. Qed.

Lemma apply_enabled_at_alter (s : State) (r : oref) :
  apply_enabled_at s r
  = set_objects (alter (restamp (enabledPluginIds s)) r (objects s)) s.
Proof.
  unfold apply_enabled_at, write_enabled.
  destruct (objects s !! r) as [p|] eqn:Hr.
  - f_equal. apply list_alter_ext; [|done].
    intros q Hq. rewrite Hr in Hq. by injection Hq as <-.
  - destruct s as [o a pl e]. unfold set_objects. simpl in *. f_equal.
    symmetry. apply list_eq. intros i. rewrite list_lookup_alter.
    case_decide; [subst; by rewrite Hr | done].
Qed.

Lemma fold_apply_enabled (rs : list oref) (s : State) :
  fold_left apply_enabled_at rs s
  = set_objects
      (fold_left (fun o r => alter (restamp (enabledPluginIds s)) r o) rs (objects s)) s.
Proof.
  revert s. induction rs as [|r rs IH]; intros s; simpl.
  - by destruct s.
  - rewrite IH, apply_enabled_at_alter. by destruct s.
Qed.

Lemma lookup_fold_alter (e : JsSet.t) (rs : list oref) (o : list ClaudianPlugin) (i : nat) :
  fold_left (fun o r => alter (restamp e) r o) rs o !! i
  = (if bool_decide (i ∈ rs) then restamp e else fun p => p) <$> (o !! i).
Proof.
  revert o. induction rs as [|r rs IH]; intros o; simpl.
  - by destruct (o !! i).
  - rewrite IH, list_lookup_alter.
    destruct (decide (r = i)) as [->|Hne].
    + rewrite (bool_decide_eq_true_2 (i ∈ i :: rs)) by left.
      destruct (o !! i); simpl; [|done].
      by case_bool_decide.
    + destruct (bool_decide (i ∈ rs)) eqn:Hin.
      * apply bool_decide_eq_true_1 in Hin.
        by rewrite (bool_decide_eq_true_2 (i ∈ r :: rs)) by (by right).
      * apply bool_decide_eq_false_1 in Hin.
        rewrite (bool_decide_eq_false_2 (i ∈ r :: rs)); [done|].
        intros Hi. apply elem_of_cons in Hi as [->|]; done.
Qed.

Lemma apply_enabled_state_fields (s : State) :
  arrays (apply_enabled_state s) = arrays s
  /\ plugins (apply_enabled_state s) = plugins s
  /\ enabledPluginIds (apply_enabled_state s) = enabledPluginIds s.
Proof. unfold apply_enabled_state. rewrite fold_apply_enabled. done. Qed.

Lemma apply_enabled_state_lookup (s : State) (i : nat) :
  objects (apply_enabled_state s) !! i
  = (if bool_decide (i ∈ array_get s (plugins s))
     then restamp (enabledPluginIds s) else fun p => p) <$> (objects s !! i).
Proof.
  unfold apply_enabled_state. rewrite fold_apply_enabled. simpl.
  apply lookup_fold_alter.
Qed.


Lemma unchanged_refl (s : State) : unchanged s s.
Proof. unfold unchanged. auto. Qed.

Lemma unchanged_array_get (s s' : State) (a : aref) :
  unchanged s s' -> a < length (arrays s) -> array_get s' a = array_get s a.
Proof.
  intros (_ & _ & _ & _ & Ha) Hlt. unfold array_get. by rewrite Ha.
Qed.

Lemma array_new_unchanged (l : list oref) (s : State) :
  unchanged s (snd (array_new l s)).
Proof.
  unfold unchanged, array_new. simpl. repeat split; try done.
  - rewrite length_app. lia.
  - intros a Ha. by apply lookup_app_l.
Qed.

Lemma array_get_new_same (l : list oref) (s : State) :
  array_get (snd (array_new l s)) (fst (array_new l s)) = l.
Proof.
  unfold array_get, array_new. simpl.
  by rewrite list_lookup_middle.
Qed.

(** An address that is not allocated reads as empty, before and after an
    allocation of an empty array. *)
Lemma array_get_new_other (l : list oref) (s : State) (a : aref) :
  (length (arrays s) <= a -> l = []) ->
  array_get (snd (array_new l s)) a = array_get s a.
Proof.
  intros Hl. destruct (decide (a < length (arrays s))) as [Hlt|Hge].
  - apply unchanged_array_get; [apply array_new_unchanged | done].
  - rewrite Hl by lia. unfold array_get, array_new. simpl.
    rewrite (lookup_ge_None_2 (arrays s)) by lia.
    destruct (decide (a = length (arrays s))) as [->|Hne].
    + by rewrite list_lookup_middle.
    + rewrite lookup_ge_None_2; [done|]. rewrite length_app. simpl. lia.
Qed.

Lemma array_get_unallocated (s : State) (a : aref) :
  length (arrays s) <= a -> array_get s a = [].
Proof. intros Ha. unfold array_get. by rewrite lookup_ge_None_2. Qed.

Lemma array_get_set (a b : aref) (l : list oref) (s : State) :
  array_get (array_set a l s) b
  = if bool_decide (a = b /\ a < length (arrays s)) then l else array_get s b.
Proof.
  unfold array_get, array_set. simpl. rewrite list_lookup_insert.
  case_decide; [by rewrite bool_decide_eq_true_2 | by rewrite bool_decide_eq_false_2].
Qed.

Lemma Array_filter_unchanged (f : ClaudianPlugin -> bool) (a : aref) (s : State) :
  unchanged s (snd (Array_filter f a s)).
Proof. apply array_new_unchanged. Qed.

Lemma Array_filter_stored (f : ClaudianPlugin -> bool) (s : State) :
  stored (snd (Array_filter f (plugins s) s)) = stored s.
Proof.
  unfold stored, Array_filter. simpl. apply (array_get_new_other _ s).
  intros Hge. by rewrite array_get_unallocated.
Qed.

Lemma Array_filter_result (f : ClaudianPlugin -> bool) (a : aref) (s : State) :
  array_get (snd (Array_filter f a s)) (fst (Array_filter f a s))
  = List.filter (holds s f) (array_get s a).
Proof. apply array_get_new_same. Qed.

(** ** Reading through references *)

Lemma deref_filter (s : State) (f : ClaudianPlugin -> bool) (rs : list oref) :
  deref s (List.filter (holds s f) rs) = List.filter f (deref s rs).
Proof.
  induction rs as [|r rs IH]; [done|]. simpl. unfold holds at 1.
  destruct (objects s !! r) as [p|] eqn:Hr; simpl; [|done].
  destruct (f p); simpl; [by rewrite Hr, IH | done].
Qed.

Lemma deref_objects (s s' : State) (rs : list oref) :
  objects s' = objects s -> deref s' rs = deref s rs.
Proof. intros Ho. induction rs as [|r rs IH]; simpl; [done|]. by rewrite Ho, IH. Qed.

Lemma holds_objects (s s' : State) (f : ClaudianPlugin -> bool) (r : oref) :
  objects s' = objects s -> holds s' f r = holds s f r.
Proof. intros Ho. unfold holds. by rewrite Ho. Qed.

Lemma In_deref (s : State) (rs : list oref) (p : ClaudianPlugin) :
  In p (deref s rs) <-> exists r, In r rs /\ objects s !! r = Some p.
Proof.
  induction rs as [|r rs IH]; simpl.
  - split; [done | by intros (? & [] & _)].
  - destruct (objects s !! r) as [q|] eqn:Hr; simpl; rewrite IH; split.
    + intros [->|(r' & ? & ?)]; eauto.
    + intros (r' & [<-|?] & Hp); [left; congruence | eauto].
    + intros (r' & ? & ?); eauto.
    + intros (r' & [<-|?] & Hp); [congruence | eauto].
Qed.

(** ** Calls that only read *)

Lemma stored_unchanged (s s' : State) :
  unchanged s s' -> plugins s < length (arrays s) -> stored s' = stored s.
Proof.
  intros Hu Hlt. unfold stored.
  rewrite (proj1 (proj2 Hu)). by apply unchanged_array_get.
Qed.

Lemma getActivePlugins_unchanged (s : State) :
  unchanged s (snd (getActivePlugins s)) /\ stored (snd (getActivePlugins s)) = stored s.
Proof. split; [apply Array_filter_unchanged | apply Array_filter_stored]. Qed.

Lemma getPlugins_unchanged (s : State) :
  unchanged s (snd (getPlugins s)) /\ stored (snd (getPlugins s)) = stored s.
Proof.
  split; [apply array_new_unchanged|].
  unfold getPlugins, Array_spread, stored. simpl.
  apply (array_get_new_other _ s). intros Hge. by apply array_get_unallocated.
Qed.

(** The active plugins of a store, as records. *)
Lemma getActivePlugins_deref (s : State) :
  deref (snd (getActivePlugins s))
        (array_get (snd (getActivePlugins s)) (fst (getActivePlugins s)))
  = List.filter is_active (loaded s).
Proof.
  unfold getActivePlugins. rewrite Array_filter_result.
  rewrite (deref_objects s) by done. apply deref_filter.
Qed.

Lemma length_sort_insert {A : Type} (cmp : A -> A -> Z) (x : A) (l : list A) :
  length (sort_insert cmp x l) = S (length l).
Proof.
  induction l as [|y l IH]; simpl; [done|].
  destruct (cmp x y <=? 0)%Z; simpl; [done | by rewrite IH].
Qed.

Lemma length_stable_sort {A : Type} (cmp : A -> A -> Z) (l : list A) :
  length (stable_sort cmp l) = length l.
Proof.
  induction l as [|x l IH]; simpl; [done|].
  by rewrite length_sort_insert, IH.
Qed.

Section Queries.
Variable localeCompare : string -> string -> Z.

Lemma getPluginsKey_unchanged (s : State) :
  unchanged s (snd (getPluginsKey localeCompare s))
  /\ stored (snd (getPluginsKey localeCompare s)) = stored s.
Proof.
  unfold getPluginsKey, getActivePlugins, Array_filter, Array_sort.
  set (l := List.filter (holds s is_active) (array_get s (plugins s))).
  pose proof (array_get_new_same l s) as Hget.
  pose proof (array_new_unchanged l s) as Hu.
  pose proof (Array_filter_stored is_active s) as Hst.
  unfold Array_filter in Hst. fold l in Hst.
  unfold array_new in *. simpl in *.
  set (s1 := set_arrays (arrays s ++ [l]) s) in *.
  set (a := length (arrays s)) in *.
  set (s2 := array_set a _ s1).
  assert (Hres : unchanged s s2 /\ stored s2 = stored s).
  { split.
    - unfold unchanged, s2, array_set. simpl. repeat split; try done.
      + rewrite length_insert, length_app. lia.
      + intros b Hb. rewrite list_lookup_insert_ne by (unfold a; lia).
        by apply lookup_app_l.
    - unfold stored in *. change (plugins s2) with (plugins s).
      change (plugins s1) with (plugins s) in Hst.
      unfold s2. rewrite array_get_set. case_bool_decide as Hc; [|done].
      destruct Hc as [Hc _]. rewrite Hget.
      assert (Hl : l = []).
      { unfold l. rewrite array_get_unallocated by (unfold a in Hc; lia). done. }
      rewrite Hl. simpl. symmetry. apply array_get_unallocated.
      unfold a in Hc. lia. }
  by destruct (length (array_get s2 a) =? 0).
Qed.

Lemma query_unchanged (c : Call) (s : State) :
  is_query c = true ->
  unchanged s (exec localeCompare s c) /\ stored (exec localeCompare s c) = stored s.
Proof.
  destruct c; simpl; try discriminate; intros _.
  - apply getPlugins_unchanged.
  - apply (getActivePlugins_unchanged s).
  - split.
    + apply (Array_filter_unchanged
        (fun plugin => enabled plugin && negb (status_eqb (status plugin) available))
        (plugins s) s).
    + apply (Array_filter_stored
        (fun plugin => enabled plugin && negb (status_eqb (status plugin) available)) s).
  - apply (getActivePlugins_unchanged s).
  - apply (getActivePlugins_unchanged s).
  - apply getPluginsKey_unchanged.
  - split; [apply unchanged_refl | done].
  - apply (getActivePlugins_unchanged s).
Qed.

End Queries.

(** ** Facts that depend on the manager's view only *)

Lemma loaded_view (s s' : State) :
  objects s' = objects s -> stored s' = stored s -> loaded s' = loaded s.
Proof. intros Ho Hs. unfold loaded. rewrite Hs. by apply deref_objects. Qed.

Lemma find_ext {A : Type} (f g : A -> bool) (l : list A) :
  (forall x, f x = g x) -> List.find f l = List.find g l.
Proof.
  intros Hfg. induction l as [|x l IH]; simpl; [done|]. by rewrite Hfg, IH.
Qed.

Lemma find_by_id_stored (x : string) (s : State) :
  find_by_id x s = List.find (holds s (fun p => String.eqb (id p) x)) (stored s).
Proof. done. Qed.

Lemma find_by_id_view (x : string) (s s' : State) :
  objects s' = objects s -> stored s' = stored s ->
  find_by_id x s' = find_by_id x s.
Proof.
  intros Ho Hs. rewrite !find_by_id_stored, Hs.
  apply find_ext. intros r. by apply holds_objects.
Qed.

Lemma consistent_view (s s' : State) :
  objects s' = objects s -> stored s' = stored s ->
  enabledPluginIds s' = enabledPluginIds s ->
  consistent s -> consistent s'.
Proof.
  intros Ho Hs He. unfold consistent. by rewrite (loaded_view s s'), He.
Qed.

Lemma first_consistent_view (s s' : State) :
  objects s' = objects s -> stored s' = stored s ->
  enabledPluginIds s' = enabledPluginIds s ->
  first_consistent s -> first_consistent s'.
Proof.
  intros Ho Hs He Hc x r Hfind.
  rewrite (find_by_id_view x s s') in Hfind by done.
  rewrite (holds_objects s s'), He by done. by apply Hc.
Qed.

(** What [find] tells about the reference it returns. *)
Lemma find_by_id_Some (x : string) (s : State) (r : oref) :
  find_by_id x s = Some r ->
  In r (stored s) /\ exists p, objects s !! r = Some p /\ id p = x.
Proof.
  rewrite find_by_id_stored. intros Hf. apply find_some in Hf as [Hin Hh].
  split; [done|]. unfold holds in Hh.
  destruct (objects s !! r) as [p|]; [|done].
  exists p. split; [done|]. by apply String.eqb_eq.
Qed.

Lemma find_by_id_None (x : string) (s : State) :
  find_by_id x s = None <-> ~ In x (List.map id (loaded s)).
Proof.
  rewrite find_by_id_stored. unfold loaded. split.
  - intros Hf Hin. apply in_map_iff in Hin as (p & Hid & Hp).
    apply In_deref in Hp as (r & Hr & Hp).
    pose proof (find_none _ _ Hf r Hr) as Hh. unfold holds in Hh.
    rewrite Hp in Hh. apply String.eqb_neq in Hh. done.
  - intros Hn. destruct (List.find _ _) as [r|] eqn:Hf; [|done].
    exfalso. apply Hn. apply find_some in Hf as [Hin Hh]. unfold holds in Hh.
    destruct (objects s !! r) as [p|] eqn:Hp; [|done].
    apply String.eqb_eq in Hh. apply in_map_iff. exists p. split; [done|].
    apply In_deref. eauto.
Qed.

Lemma consistent_first_consistent (s : State) :
  consistent s -> first_consistent s.
Proof.
  intros Hc x r Hf. apply find_by_id_Some in Hf as (Hin & p & Hp & <-).
  unfold holds. rewrite Hp.
  unfold consistent in Hc. rewrite Forall_forall in Hc.
  apply Hc. apply list_elem_of_In, In_deref. eauto.
Qed.

(** ** Updates that keep identifiers *)

Lemma deref_map_id (s s' : State) (rs : list oref) :
  (forall i, id <$> (objects s' !! i) = id <$> (objects s !! i)) ->
  List.map id (deref s' rs) = List.map id (deref s rs).
Proof.
  intros Hid. induction rs as [|r rs IH]; simpl; [done|].
  specialize (Hid r).
  destruct (objects s' !! r), (objects s !! r); simpl in *; try done.
  injection Hid as ->. by rewrite IH.
Qed.

Lemma holds_id_preserved (s s' : State) (x : string) (r : oref) :
  (forall i, id <$> (objects s' !! i) = id <$> (objects s !! i)) ->
  holds s' (fun p => String.eqb (id p) x) r = holds s (fun p => String.eqb (id p) x) r.
Proof.
  intros Hid. specialize (Hid r). unfold holds.
  destruct (objects s' !! r), (objects s !! r); simpl in *; try done.
  by injection Hid as ->.
Qed.

Lemma alter_keeps_id (f : ClaudianPlugin -> ClaudianPlugin) (o : list ClaudianPlugin)
      (r i : nat) :
  (forall p, id (f p) = id p) ->
  id <$> (alter f r o !! i) = id <$> (o !! i).
Proof.
  intros Hf. rewrite list_lookup_alter. case_decide; [subst|done].
  destruct (o !! i); simpl; [by rewrite Hf | done].
Qed.

Lemma apply_enabled_state_keeps_id (s : State) (i : nat) :
  id <$> (objects (apply_enabled_state s) !! i) = id <$> (objects s !! i).
Proof.
  rewrite apply_enabled_state_lookup.
  destruct (objects s !! i); simpl; [|done]. by case_bool_decide.
Qed.

Lemma apply_enabled_state_stored (s : State) :
  stored (apply_enabled_state s) = stored s.
Proof.
  destruct (apply_enabled_state_fields s) as (Ha & Hp & _).
  unfold stored, array_get. by rewrite Ha, Hp.
Qed.

Lemma apply_enabled_state_ids (s : State) :
  List.map id (loaded (apply_enabled_state s)) = List.map id (loaded s).
Proof.
  unfold loaded. rewrite apply_enabled_state_stored.
  apply deref_map_id, apply_enabled_state_keeps_id.
Qed.

(** After the loop every loaded plugin agrees with the set. *)
Lemma apply_enabled_state_consistent (s : State) :
  consistent (apply_enabled_state s).
Proof.
  unfold consistent, loaded. rewrite apply_enabled_state_stored.
  destruct (apply_enabled_state_fields s) as (_ & _ & He). rewrite He.
  apply Forall_forall. intros p Hp.
  apply list_elem_of_In, In_deref in Hp as (r & Hr & Hp).
  rewrite apply_enabled_state_lookup in Hp.
  rewrite bool_decide_eq_true_2 in Hp by (by apply list_elem_of_In).
  destruct (objects s !! r) as [q|]; [|done].
  simpl in Hp. by injection Hp as <-.
Qed.

(** Unique identifiers: two references of the list with one identifier are
    one reference. *)
Lemma unique_ids_refs (s : State) (rs : list oref) (r1 r2 : oref)
      (p1 p2 : ClaudianPlugin) :
  unique_ids (deref s rs) ->
  In r1 rs -> In r2 rs ->
  objects s !! r1 = Some p1 -> objects s !! r2 = Some p2 ->
  id p1 = id p2 -> r1 = r2.
Proof.
  unfold unique_ids. induction rs as [|r rs IH]; simpl; [done|].
  intros Hnd H1 H2 Hp1 Hp2 Hid.
  destruct (objects s !! r) as [p|] eqn:Hr; simpl in Hnd.
  - apply NoDup_cons in Hnd as [Hnotin Hnd].
    assert (Hrest : forall r' p', In r' rs -> objects s !! r' = Some p' -> id p' <> id p).
    { intros r' p' Hin Hp' Heq. apply Hnotin. rewrite <- Heq.
      apply list_elem_of_In, in_map, In_deref. eauto. }
    destruct H1 as [<-|H1], H2 as [<-|H2]; try done.
    + exfalso. apply (Hrest r2 p2 H2 Hp2). congruence.
    + exfalso. apply (Hrest r1 p1 H1 Hp1). congruence.
    + by apply IH.
  - destruct H1 as [<-|H1]; [congruence|].
    destruct H2 as [<-|H2]; [congruence|]. by apply IH.
Qed.

(** ** Flipping one plugin

    [togglePlugin], [enablePlugin] and [disablePlugin] change the state in
    one way: the flag of the record [find] returned is set to [b] and the
    set is replaced by one that differs in the membership of [x] only. *)
Section Flip.
Variables (x : string) (r : oref) (b : bool) (e' : JsSet.t) (s : State).
Hypothesis Hfind : find_by_id x s = Some r.
Hypothesis Hother : forall y, y <> x ->
  JsSet.has e' y = JsSet.has (enabledPluginIds s) y.
Hypothesis Hself : JsSet.has e' x = b.

Local Abbreviation s' := (write_enabled r b (set_enabledPluginIds e' s)).

Lemma flip_keeps_id (i : nat) :
  id <$> (objects s' !! i) = id <$> (objects s !! i).
Proof. by apply alter_keeps_id. Qed.

Lemma flip_ids : List.map id (loaded s') = List.map id (loaded s).
Proof. apply (deref_map_id s s'), flip_keeps_id. Qed.

Lemma flip_find (y : string) : find_by_id y s' = find_by_id y s.
Proof.
  rewrite !find_by_id_stored. apply find_ext. intros i.
  apply holds_id_preserved, flip_keeps_id.
Qed.

Lemma flip_consistent :
  unique_ids (loaded s) -> consistent s -> consistent s'.
Proof.
  intros Hu Hc. destruct (find_by_id_Some _ _ _ Hfind) as (Hin & p & Hp & Hid).
  unfold consistent in *. rewrite Forall_forall in Hc. apply Forall_forall.
  intros q Hq. apply list_elem_of_In, In_deref in Hq as (i & Hi & Hq).
  change (alter (with_enabled b) r (objects s) !! i = Some q) in Hq.
  change (enabledPluginIds s') with e'.
  rewrite list_lookup_alter in Hq. case_decide as Hri.
  - subst i. rewrite Hp in Hq. simpl in Hq. injection Hq as <-. simpl.
    by rewrite Hid.
  - assert (Hne : id q <> x).
    { intros Heq. apply Hri.
      apply (unique_ids_refs s (stored s) r i p q); try done. congruence. }
    rewrite Hother by done. apply Hc. apply list_elem_of_In, In_deref. eauto.
Qed.

Lemma flip_first_consistent :
  first_consistent s -> first_consistent s'.
Proof.
  intros Hc y i Hy. rewrite flip_find in Hy.
  pose proof (Hc y i Hy) as Hyi.
  destruct (find_by_id_Some _ _ _ Hfind) as (_ & p & Hp & Hid).
  change (enabledPluginIds s') with e'.
  destruct (decide (y = x)) as [->|Hne].
  - assert (i = r) as -> by congruence.
    unfold holds. change (objects s') with (alter (with_enabled b) r (objects s)).
    rewrite list_lookup_alter_eq, Hp. simpl. done.
  - rewrite Hother by done. rewrite <- Hyi.
    apply find_by_id_Some in Hy as (_ & q & Hq & Hidq).
    assert (r <> i) by (intros ->; congruence).
    unfold holds. change (objects s') with (alter (with_enabled b) r (objects s)).
    by rewrite list_lookup_alter_ne.
Qed.

End Flip.

Lemma has_add_self (x : string) (e : JsSet.t) : JsSet.has (JsSet.add x e) x = true.
Proof. by rewrite has_add, String.eqb_refl. Qed.

Lemma has_add_other (x y : string) (e : JsSet.t) :
  y <> x -> JsSet.has (JsSet.add x e) y = JsSet.has e y.
Proof. intros Hne. rewrite has_add. by apply String.eqb_neq in Hne as ->. Qed.

Lemma has_delete_self (x : string) (e : JsSet.t) : JsSet.has (JsSet.delete x e) x = false.
Proof. by rewrite has_delete, String.eqb_refl. Qed.

Lemma has_delete_other (x y : string) (e : JsSet.t) :
  y <> x -> JsSet.has (JsSet.delete x e) y = JsSet.has e y.
Proof. intros Hne. rewrite has_delete. by apply String.eqb_neq in Hne as ->. Qed.

(** The three incremental calls keep both agreements and the identifiers. *)
Lemma togglePlugin_ids (x : string) (s : State) :
  List.map id (loaded (snd (togglePlugin x s))) = List.map id (loaded s).
Proof.
  unfold togglePlugin. destruct (find_by_id x s) as [r|]; [|done].
  destruct (holds s enabled r); simpl; apply flip_ids.
Qed.

Lemma enablePlugin_ids (x : string) (s : State) :
  List.map id (loaded (snd (enablePlugin x s))) = List.map id (loaded s).
Proof.
  unfold enablePlugin. destruct (find_by_id x s) as [r|]; [|done].
  destruct (holds s enabled r); simpl; [done | apply flip_ids].
Qed.

Lemma disablePlugin_ids (x : string) (s : State) :
  List.map id (loaded (snd (disablePlugin x s))) = List.map id (loaded s).
Proof.
  unfold disablePlugin. destruct (find_by_id x s) as [r|]; [|done].
  destruct (holds s enabled r); simpl; [apply flip_ids | done].
Qed.

Lemma togglePlugin_consistent (x : string) (s : State) :
  unique_ids (loaded s) -> consistent s -> consistent (snd (togglePlugin x s)).
Proof.
  intros Hu Hc. unfold togglePlugin.
  destruct (find_by_id x s) as [r|] eqn:Hf; [|done].
  destruct (holds s enabled r); simpl;
    apply (flip_consistent x); auto using has_add_self, has_add_other,
      has_delete_self, has_delete_other.
Qed.

Lemma enablePlugin_consistent (x : string) (s : State) :
  unique_ids (loaded s) -> consistent s -> consistent (snd (enablePlugin x s)).
Proof.
  intros Hu Hc. unfold enablePlugin.
  destruct (find_by_id x s) as [r|] eqn:Hf; [|done].
  destruct (holds s enabled r); simpl; [done|].
  apply (flip_consistent x); auto using has_add_self, has_add_other.
Qed.

Lemma disablePlugin_consistent (x : string) (s : State) :
  unique_ids (loaded s) -> consistent s -> consistent (snd (disablePlugin x s)).
Proof.
  intros Hu Hc. unfold disablePlugin.
  destruct (find_by_id x s) as [r|] eqn:Hf; [|done].
  destruct (holds s enabled r); simpl; [|done].
  apply (flip_consistent x); auto using has_delete_self, has_delete_other.
Qed.

Lemma togglePlugin_first_consistent (x : string) (s : State) :
  first_consistent s -> first_consistent (snd (togglePlugin x s)).
Proof.
  intros Hc. unfold togglePlugin.
  destruct (find_by_id x s) as [r|] eqn:Hf; [|done].
  destruct (holds s enabled r); simpl;
    apply (flip_first_consistent x); auto using has_add_self, has_add_other,
      has_delete_self, has_delete_other.
Qed.

Lemma enablePlugin_first_consistent (x : string) (s : State) :
  first_consistent s -> first_consistent (snd (enablePlugin x s)).
Proof.
  intros Hc. unfold enablePlugin.
  destruct (find_by_id x s) as [r|] eqn:Hf; [|done].
  destruct (holds s enabled r); simpl; [done|].
  apply (flip_first_consistent x); auto using has_add_self, has_add_other.
Qed.

Lemma disablePlugin_first_consistent (x : string) (s : State) :
  first_consistent s -> first_consistent (snd (disablePlugin x s)).
Proof.
  intros Hc. unfold disablePlugin.
  destruct (find_by_id x s) as [r|] eqn:Hf; [|done].
  destruct (holds s enabled r); simpl; [|done].
  apply (flip_first_consistent x); auto using has_delete_self, has_delete_other.
Qed.

(** ** Sequences of calls from a fresh manager *)

Lemma new_PluginManager_stored (o : list ClaudianPlugin) (a : list (list oref)) :
  stored (new_PluginManager o a) = [].
Proof.
  unfold stored, array_get, new_PluginManager. simpl.
  by rewrite list_lookup_middle.
Qed.

Lemma new_PluginManager_loaded (o : list ClaudianPlugin) (a : list (list oref)) :
  loaded (new_PluginManager o a) = [].
Proof. unfold loaded. by rewrite new_PluginManager_stored. Qed.

Lemma loadPlugins_ids (answer : StorageAnswer) (s : State) :
  List.map id (loaded (loadPlugins answer s)) = List.map id (answered answer).
Proof.
  unfold loadPlugins. rewrite apply_enabled_state_ids.
  f_equal. by apply loaded_view.
Qed.

Lemma setEnabledPluginIds_ids (ids : list string) (s : State) :
  List.map id (loaded (setEnabledPluginIds ids s)) = List.map id (loaded s).
Proof.
  unfold setEnabledPluginIds. rewrite apply_enabled_state_ids.
  f_equal. by apply loaded_view.
Qed.

Section Traces.
Variable localeCompare : string -> string -> Z.

Lemma exec_consistent (c : Call) (s : State) :
  registry_unique c ->
  unique_ids (loaded s) -> consistent s ->
  unique_ids (loaded (exec localeCompare s c)) /\ consistent (exec localeCompare s c).
Proof.
  intros Hc Hu Hs. unfold unique_ids in *.
  destruct (is_query c) eqn:Hq.
  - destruct (query_unchanged localeCompare c s Hq) as ((Ho & Hp & He & _) & Hst).
    split; [by rewrite (loaded_view s) | by apply (consistent_view s)].
  - destruct c; try discriminate; cbn [exec registry_unique] in *.
    + split; [by rewrite setEnabledPluginIds_ids | apply apply_enabled_state_consistent].
    + split; [by rewrite loadPlugins_ids | apply apply_enabled_state_consistent].
    + split; [by rewrite togglePlugin_ids | by apply togglePlugin_consistent].
    + split; [by rewrite enablePlugin_ids | by apply enablePlugin_consistent].
    + split; [by rewrite disablePlugin_ids | by apply disablePlugin_consistent].
Qed.

Lemma exec_first_consistent (c : Call) (s : State) :
  first_consistent s -> first_consistent (exec localeCompare s c).
Proof.
  intros Hs. destruct (is_query c) eqn:Hq.
  - destruct (query_unchanged localeCompare c s Hq) as ((Ho & Hp & He & _) & Hst).
    by apply (first_consistent_view s).
  - destruct c; try discriminate; cbn [exec].
    + apply consistent_first_consistent, apply_enabled_state_consistent.
    + apply consistent_first_consistent, apply_enabled_state_consistent.
    + by apply togglePlugin_first_consistent.
    + by apply enablePlugin_first_consistent.
    + by apply disablePlugin_first_consistent.
Qed.

Lemma run_consistent (calls : list Call) (s : State) :
  Forall registry_unique calls ->
  unique_ids (loaded s) -> consistent s ->
  unique_ids (loaded (run localeCompare calls s)) /\ consistent (run localeCompare calls s).
Proof.
  intros Hall. revert s. induction Hall as [|c calls Hc Hall IH]; intros s Hu Hs.
  - done.
  - simpl. destruct (exec_consistent c s Hc Hu Hs) as [Hu' Hs']. by apply IH.
Qed.

Lemma run_first_consistent (calls : list Call) (s : State) :
  first_consistent s -> first_consistent (run localeCompare calls s).
Proof.
  revert s. induction calls as [|c calls IH]; intros s Hs; [done|].
  simpl. apply IH. by apply exec_first_consistent.
Qed.

Lemma new_PluginManager_consistent (o : list ClaudianPlugin) (a : list (list oref)) :
  unique_ids (loaded (new_PluginManager o a)) /\ consistent (new_PluginManager o a).
Proof.
  unfold consistent, unique_ids. rewrite new_PluginManager_loaded.
  split; [apply NoDup_nil_2 | apply Forall_nil_2].
Qed.

(** Every state a manager can be in, when the registry keeps identifiers
    unique, has the full agreement. *)
Lemma reachable_consistent (o : list ClaudianPlugin) (a : list (list oref))
      (calls : list Call) :
  Forall registry_unique calls ->
  consistent (run localeCompare calls (new_PluginManager o a)).
Proof.
  intros Hall. destruct (new_PluginManager_consistent o a) as [Hu Hc].
  by apply run_consistent.
Qed.

(** Whatever the registry returns, the record [find] selects agrees. *)
Lemma reachable_first_consistent (o : list ClaudianPlugin) (a : list (list oref))
      (calls : list Call) :
  first_consistent (run localeCompare calls (new_PluginManager o a)).
Proof.
  apply run_first_consistent, consistent_first_consistent.
  apply new_PluginManager_consistent.
Qed.

End Traces.

(** ** The model on the scenarios of the spec and of the unit tests *)

Example scenario_views :
  List.map enabled (loaded scenario_state) = [true]
  /\ fst (getActivePluginConfigs scenario_state) = [mkConfig local "/i/.plugin"]
  /\ fst (getPluginCommandPaths scenario_state) = [mkCommandPath "P" "/i"]
  /\ fst (getPluginsKey codeUnitCompare scenario_state) = "p@m:/i/.plugin".
Proof. repeat split. Qed.

Example unavailable_enabled_of_the_test :
  fst (getUnavailableEnabledPlugins unavailable_state)
  = ["unavailable-plugin"; "invalid-plugin"].
Proof. reflexivity. Qed.

Example toggle_of_the_test :
  fst (togglePlugin "p@m" scenario_state) = []
  /\ fst (togglePlugin "nonexistent-plugin" scenario_state) = ["p@m"]
  /\ fst (enablePlugin "p@m" scenario_state) = ["p@m"]
  /\ fst (disablePlugin "p@m" scenario_state) = [].
Proof. repeat split. Qed.


(** * The claims *)

Lemma session_registry_unique : Forall registry_unique session.
Proof.
  unfold session.
  repeat (apply Forall_cons; split); try apply Forall_nil_2; try exact I;
    unfold registry_unique, unique_ids; compute_done.
Qed.

(** Without the incremental calls the agreement needs nothing of the
    registry: every [setEnabledPluginIds] and [loadPlugins] rewrites all
    flags. *)
Lemma run_consistent_no_incremental (localeCompare : string -> string -> Z)
      (calls : list Call) (s : State) :
  Forall (fun c => is_incremental c = false) calls ->
  consistent s -> consistent (run localeCompare calls s).
Proof.
  intros Hall. revert s. induction Hall as [|c calls Hc Hall IH]; intros s Hs; [done|].
  simpl. apply IH. destruct (is_query c) eqn:Hq.
  - destruct (query_unchanged localeCompare c s Hq) as ((Ho & Hp & He & _) & Hst).
    by apply (consistent_view s).
  - destruct c; try discriminate; cbn [exec]; apply apply_enabled_state_consistent.
Qed.

(** Outside the data model, where identifiers are unique: a registry that
    returns two records with one identifier.  After [loadPlugins] and
    [togglePlugin('dup')] the second record's identifier is in the Enabled-ID
    Set and its [enabled] flag is [false], since [find] returned the first
    record and only that one was written.  The incremental calls rely on the
    uniqueness the data model states. *)
Lemma toggle_writes_first_duplicate_only :
  exists p, In p (loaded duplicate_state)
            /\ JsSet.has (enabledPluginIds duplicate_state) (id p) = true
            /\ enabled p = false.
Proof.
  exists duplicate_second. split; [|by split].
  vm_compute. right. by left.
Qed.

(** C1.  After any sequence of calls on a fresh manager, and after each call
    of it, every loaded plugin's [enabled] flag equals the membership of its
    identifier in the Enabled-ID Set.  The sequence may mix
    [setEnabledPluginIds], [loadPlugins], [togglePlugin], [enablePlugin],
    [disablePlugin] and the queries.  The registry's lists have unique
    identifiers, as the data model states; when none of the three
    incremental calls is in the sequence, not even that is needed. *)
Theorem enabled_flag_agrees_after_each_call
        (localeCompare : string -> string -> Z)
        (o : list ClaudianPlugin) (a : list (list oref))
        (calls : list Call) (n : nat) :
  Forall registry_unique calls \/ Forall (fun c => is_incremental c = false) calls ->
  consistent (run localeCompare (take n calls) (new_PluginManager o a)).
Proof.
  intros [Hall|Hall].
  - apply reachable_consistent. by apply Forall_take.
  - apply run_consistent_no_incremental; [by apply Forall_take|].
    apply new_PluginManager_consistent.
Qed.

Lemma enabled_flag_agrees_after_each_call_witness :
  consistent (run codeUnitCompare (take 5 session)
                  (mock_manager [plugin_b; plugin_a; plugin_c])).
Proof.
  apply (enabled_flag_agrees_after_each_call codeUnitCompare).
  left. exact session_registry_unique.
Defined.

(** C9.  [loadPlugins] leaves the Enabled-ID Set as it was, whatever list
    the registry returns. *)
Theorem loadPlugins_keeps_enabledPluginIds (answer : StorageAnswer) (s : State) :
  enabledPluginIds (loadPlugins answer s) = enabledPluginIds s.
Proof.
  unfold loadPlugins.
  by destruct (apply_enabled_state_fields
    (mkState (answer_objects answer) (answer_arrays answer)
             (answer_result answer) (enabledPluginIds s))) as (_ & _ & ->).
Qed.

(** C6.  For an identifier no loaded plugin has, [togglePlugin] returns
    normally, leaves the whole state (store and fields) as it was, and
    returns an array with exactly the members of the Enabled-ID Set. *)
Theorem togglePlugin_unknown_identifier (x : string) (s : State) :
  ~ In x (List.map id (loaded s)) ->
  snd (togglePlugin x s) = s
  /\ forall y, In y (fst (togglePlugin x s)) <-> JsSet.has (enabledPluginIds s) y = true.
Proof.
  intros Hx. apply find_by_id_None in Hx. unfold togglePlugin. rewrite Hx. simpl.
  split; [done|]. intros y. symmetry. apply has_true_iff.
Qed.

Lemma togglePlugin_unknown_identifier_witness :
  snd (togglePlugin "nonexistent-plugin"
         (run codeUnitCompare (take 2 session) (mock_manager [plugin_b; plugin_a; plugin_c])))
  = run codeUnitCompare (take 2 session) (mock_manager [plugin_b; plugin_a; plugin_c])
  /\ forall y,
       In y (fst (togglePlugin "nonexistent-plugin"
               (run codeUnitCompare (take 2 session)
                    (mock_manager [plugin_b; plugin_a; plugin_c]))))
       <-> JsSet.has
             (enabledPluginIds
                (run codeUnitCompare (take 2 session)
                     (mock_manager [plugin_b; plugin_a; plugin_c]))) y = true.
Proof.
  apply togglePlugin_unknown_identifier.
  vm_compute. intros H. repeat destruct H as [H|H]; discriminate || done.
Defined.

(** Reading the flag that was just written. *)
Lemma holds_enabled_written (r : oref) (b : bool) (s : State) :
  is_Some (objects s !! r) -> holds (write_enabled r b s) enabled r = b.
Proof.
  intros [p Hp]. unfold holds, write_enabled. simpl.
  by rewrite list_lookup_alter_eq, Hp.
Qed.

Lemma togglePlugin_found (x : string) (s : State) (r : oref) :
  find_by_id x s = Some r ->
  snd (togglePlugin x s)
  = if holds s enabled r
    then write_enabled r false
           (set_enabledPluginIds (JsSet.delete x (enabledPluginIds s)) s)
    else write_enabled r true
           (set_enabledPluginIds (JsSet.add x (enabledPluginIds s)) s).
Proof. intros Hf. unfold togglePlugin. by rewrite Hf. Qed.

Lemma togglePlugin_not_found (x : string) (s : State) :
  find_by_id x s = None -> snd (togglePlugin x s) = s.
Proof. intros Hf. unfold togglePlugin. by rewrite Hf. Qed.

(** Two toggles in a state where [find]'s record agrees with the set. *)
Lemma togglePlugin_twice (x : string) (s : State) :
  first_consistent s ->
  let s1 := snd (togglePlugin x s) in
  let s2 := snd (togglePlugin x s1) in
  JsSet.has (enabledPluginIds s2) x = JsSet.has (enabledPluginIds s) x
  /\ forall y, y <> x ->
       JsSet.has (enabledPluginIds s1) y = JsSet.has (enabledPluginIds s) y
       /\ JsSet.has (enabledPluginIds s2) y = JsSet.has (enabledPluginIds s1) y.
Proof.
  intros Hc s1 s2. subst s2 s1.
  destruct (find_by_id x s) as [r|] eqn:Hf.
  - pose proof (Hc x r Hf) as Hb.
    destruct (find_by_id_Some x s r Hf) as (_ & p & Hp & _).
    rewrite (togglePlugin_found x s r Hf).
    destruct (holds s enabled r) eqn:He.
    + set (s1 := write_enabled r false _).
      assert (Hf1 : find_by_id x s1 = Some r)
        by (unfold s1; rewrite flip_find; done).
      assert (He1 : holds s1 enabled r = false)
        by (unfold s1; apply holds_enabled_written; simpl; eauto).
      rewrite (togglePlugin_found x s1 r Hf1), He1.
      unfold s1. cbn [enabledPluginIds write_enabled set_objects set_enabledPluginIds].
      split.
      * by rewrite has_add_self.
      * intros y Hy. by rewrite has_add_other, !has_delete_other.
    + set (s1 := write_enabled r true _).
      assert (Hf1 : find_by_id x s1 = Some r)
        by (unfold s1; rewrite flip_find; done).
      assert (He1 : holds s1 enabled r = true)
        by (unfold s1; apply holds_enabled_written; simpl; eauto).
      rewrite (togglePlugin_found x s1 r Hf1), He1.
      unfold s1. cbn [enabledPluginIds write_enabled set_objects set_enabledPluginIds].
      split.
      * by rewrite has_delete_self.
      * intros y Hy. by rewrite has_delete_other, !has_add_other.
  - rewrite !(togglePlugin_not_found x s Hf). done.
Qed.

(** C5.  In any state a manager reaches, two successive calls of
    [togglePlugin x] bring the membership of [x] in the Enabled-ID Set back
    to what it was, and neither call changes the membership of any other
    identifier. *)
Theorem togglePlugin_twice_restores_membership
        (localeCompare : string -> string -> Z)
        (o : list ClaudianPlugin) (a : list (list oref))
        (calls : list Call) (x : string) :
  let s := run localeCompare calls (new_PluginManager o a) in
  let s1 := snd (togglePlugin x s) in
  let s2 := snd (togglePlugin x s1) in
  JsSet.has (enabledPluginIds s2) x = JsSet.has (enabledPluginIds s) x
  /\ forall y, y <> x ->
       JsSet.has (enabledPluginIds s1) y = JsSet.has (enabledPluginIds s) y
       /\ JsSet.has (enabledPluginIds s2) y = JsSet.has (enabledPluginIds s1) y.
Proof.
  intros s. apply togglePlugin_twice. apply reachable_first_consistent.
Qed.

(** What [getUnavailableEnabledPlugins] returns, in terms of the records. *)
Lemma getUnavailableEnabledPlugins_result (s : State) :
  fst (getUnavailableEnabledPlugins s)
  = List.map id
      (List.filter
         (fun plugin => enabled plugin && negb (status_eqb (status plugin) available))
         (loaded s)).
Proof.
  unfold getUnavailableEnabledPlugins, Array_map.
  set (f := fun plugin => enabled plugin && negb (status_eqb (status plugin) available)).
  pose proof (Array_filter_result f (plugins s) s) as Hres.
  destruct (Array_filter f (plugins s) s) as [found s1] eqn:Hfs.
  cbn [fst snd] in *. rewrite Hres.
  assert (Ho : objects s1 = objects s).
  { replace s1 with (snd (Array_filter f (plugins s) s)) by (by rewrite Hfs). done. }
  rewrite (deref_objects s s1) by done. by rewrite deref_filter.
Qed.

Lemma status_eqb_available (st : PluginStatus) :
  status_eqb st available = true <-> st = available.
Proof. by destruct st. Qed.

Lemma unavailable_enabled_in_consistent_state (s : State) (x : string) :
  consistent s ->
  In x (fst (getUnavailableEnabledPlugins s))
  <-> JsSet.has (enabledPluginIds s) x = true
      /\ exists p, In p (loaded s) /\ id p = x /\ status p <> available.
Proof.
  intros Hc. unfold consistent in Hc. rewrite Forall_forall in Hc.
  rewrite getUnavailableEnabledPlugins_result, in_map_iff. split.
  - intros (p & Hid & Hp). apply filter_In in Hp as [Hp Hf].
    apply andb_true_iff in Hf as [He Hst].
    subst x. split; [by rewrite <- Hc by (by apply list_elem_of_In)|].
    exists p. repeat split; [done|].
    intros Heq. apply status_eqb_available in Heq. by rewrite Heq in Hst.
  - intros (Hx & p & Hp & Hid & Hst). exists p. split; [done|].
    apply filter_In. split; [done|]. apply andb_true_iff. split.
    + rewrite Hc by (by apply list_elem_of_In). by rewrite Hid.
    + destruct (status_eqb (status p) available) eqn:Heq; [|done].
      by apply status_eqb_available in Heq.
Qed.

(** Outside the data model again, in the state with two records of one
    identifier: ['dup'] is in the Enabled-ID Set and the second record is
    loaded with status [unavailable], yet the result is empty, because the
    method reads the record's [enabled] flag, which [togglePlugin] set on the
    first record only. *)
Lemma unavailable_duplicate_is_not_reported :
  fst (getUnavailableEnabledPlugins duplicate_state) = []
  /\ JsSet.has (enabledPluginIds duplicate_state) "dup" = true
  /\ exists p, In p (loaded duplicate_state) /\ id p = "dup" /\ status p = unavailable.
Proof.
  split; [done|]. split; [done|].
  exists duplicate_second. split; [|by split].
  vm_compute. right. by left.
Qed.

(** C8.  In any state a manager reaches, the registry's lists having unique
    identifiers as the data model states, [getUnavailableEnabledPlugins]
    contains [x] exactly when [x] is in the Enabled-ID Set and a loaded
    plugin with identifier [x] has a status other than [available]; an
    identifier of the set that no loaded plugin has is not reported. *)
Theorem getUnavailableEnabledPlugins_contains
        (localeCompare : string -> string -> Z)
        (o : list ClaudianPlugin) (a : list (list oref))
        (calls : list Call) (x : string) :
  Forall registry_unique calls ->
  let s := run localeCompare calls (new_PluginManager o a) in
  (In x (fst (getUnavailableEnabledPlugins s))
   <-> JsSet.has (enabledPluginIds s) x = true
       /\ exists p, In p (loaded s) /\ id p = x /\ status p <> available)
  /\ (~ In x (List.map id (loaded s)) -> ~ In x (fst (getUnavailableEnabledPlugins s))).
Proof.
  intros Hall s.
  assert (Hc : consistent s) by (by apply reachable_consistent).
  split; [by apply unavailable_enabled_in_consistent_state|].
  intros Hnot Hin. apply unavailable_enabled_in_consistent_state in Hin; [|done].
  destruct Hin as (_ & p & Hp & Hid & _). apply Hnot. rewrite <- Hid. by apply in_map.
Qed.

Lemma getUnavailableEnabledPlugins_contains_witness :
  let s := run codeUnitCompare session (mock_manager [plugin_b; plugin_a; plugin_c]) in
  (In "plugin-c" (fst (getUnavailableEnabledPlugins s))
   <-> JsSet.has (enabledPluginIds s) "plugin-c" = true
       /\ exists p, In p (loaded s) /\ id p = "plugin-c" /\ status p <> available)
  /\ (~ In "plugin-c" (List.map id (loaded s))
      -> ~ In "plugin-c" (fst (getUnavailableEnabledPlugins s))).
Proof.
  apply (getUnavailableEnabledPlugins_contains codeUnitCompare).
  exact session_registry_unique.
Defined.

(** ** The views over the active plugins *)

(** [getActivePlugins().map(f)] is [f] over the active records, in list
    order. *)
Lemma map_active (B : Type) (f : ClaudianPlugin -> B) (s : State) :
  Array_map f (fst (getActivePlugins s)) (snd (getActivePlugins s))
  = List.map f (List.filter is_active (loaded s)).
Proof. unfold Array_map. by rewrite getActivePlugins_deref. Qed.

Lemma getActivePluginConfigs_result (s : State) :
  fst (getActivePluginConfigs s)
  = List.map (fun p => mkConfig local (pluginPath p)) (List.filter is_active (loaded s)).
Proof.
  unfold getActivePluginConfigs.
  pose proof (map_active _ (fun p => mkConfig local (pluginPath p)) s) as H.
  by destruct (getActivePlugins s).
Qed.

Lemma getPluginCommandPaths_result (s : State) :
  fst (getPluginCommandPaths s)
  = List.map (fun p => mkCommandPath (name p) (installPath p))
             (List.filter is_active (loaded s)).
Proof.
  unfold getPluginCommandPaths.
  pose proof (map_active _ (fun p => mkCommandPath (name p) (installPath p)) s) as H.
  by destruct (getActivePlugins s).
Qed.

Lemma length_deref_filter (s : State) (f : ClaudianPlugin -> bool) (rs : list oref) :
  length (deref s (List.filter (holds s f) rs)) = length (List.filter (holds s f) rs).
Proof.
  induction rs as [|r rs IH]; [done|]. simpl.
  destruct (holds s f r) eqn:Hh; [|done]. simpl.
  unfold holds in Hh. destruct (objects s !! r); [|done]. simpl. by rewrite IH.
Qed.

Lemma getEnabledCount_result (s : State) :
  fst (getEnabledCount s) = length (List.filter is_active (loaded s)).
Proof.
  unfold getEnabledCount, getActivePlugins.
  pose proof (Array_filter_result is_active (plugins s) s) as Hres.
  destruct (Array_filter is_active (plugins s) s) as [active s1]. cbn [fst snd] in *.
  rewrite Hres. unfold loaded. by rewrite <- deref_filter, length_deref_filter.
Qed.

(** C3.  [getActivePluginConfigs] returns one entry per loaded plugin that
    is enabled and has status [available], in the order of the stored list;
    each entry has type [local] and the plugin's [pluginPath] (its manifest
    path) as [path]. *)
Theorem getActivePluginConfigs_one_entry_per_active_plugin (s : State) :
  fst (getActivePluginConfigs s)
  = List.map (fun p => mkConfig local (pluginPath p))
      (List.filter (fun p => enabled p && status_eqb (status p) available) (loaded s)).
Proof. apply getActivePluginConfigs_result. Qed.

(** C4.  [getPluginCommandPaths] returns one entry per active plugin, with
    the plugin's [name] and its [installPath] as [commandsPath]; for a plugin
    whose manifest path differs from its install path, the entry differs
    from the path [getActivePluginConfigs] gives for the same plugin. *)
Theorem getPluginCommandPaths_uses_installPath (s : State) :
  fst (getPluginCommandPaths s)
  = List.map (fun p => mkCommandPath (name p) (installPath p))
      (List.filter (fun p => enabled p && status_eqb (status p) available) (loaded s))
  /\ forall (i : nat) (p : ClaudianPlugin) (c : SdkPluginConfig) (d : PluginCommandPath),
       List.filter (fun p => enabled p && status_eqb (status p) available) (loaded s) !! i
         = Some p ->
       fst (getActivePluginConfigs s) !! i = Some c ->
       fst (getPluginCommandPaths s) !! i = Some d ->
       commandsPath d = installPath p
       /\ path c = pluginPath p
       /\ (pluginPath p <> installPath p -> commandsPath d <> path c).
Proof.
  split; [apply getPluginCommandPaths_result|].
  intros i p c d Hp Hc Hd.
  rewrite getActivePluginConfigs_result in Hc.
  rewrite getPluginCommandPaths_result in Hd.
  change (List.filter is_active (loaded s) !! i = Some p) in Hp.
  rewrite list_lookup_fmap, Hp in Hc. rewrite list_lookup_fmap, Hp in Hd.
  simpl in *. injection Hc as <-. injection Hd as <-. simpl.
  repeat split. congruence.
Qed.

(** ** The key *)

Section SortFacts.
Context {A : Type} (cmp : A -> A -> Z).

Lemma sort_insert_Permutation (x : A) (l : list A) :
  Permutation (sort_insert cmp x l) (x :: l).
Proof.
  induction l as [|y l IH]; simpl; [done|].
  destruct (cmp x y <=? 0)%Z; [done|].
  rewrite IH. apply perm_swap.
Qed.

Lemma stable_sort_Permutation (l : list A) : Permutation (stable_sort cmp l) l.
Proof.
  induction l as [|x l IH]; simpl; [done|].
  by rewrite sort_insert_Permutation, IH.
Qed.

Hypothesis cmp_total : forall a b, (cmp a b <= 0 \/ cmp b a <= 0)%Z.

Lemma sort_insert_Sorted (x : A) (l : list A) :
  Sorted (fun a b => (cmp a b <= 0)%Z) l ->
  Sorted (fun a b => (cmp a b <= 0)%Z) (sort_insert cmp x l).
Proof.
  induction 1 as [|y l Hl IH Hhd]; simpl.
  - repeat constructor.
  - destruct (Z.leb_spec (cmp x y) 0) as [Hle|Hgt].
    + constructor; [by constructor | by constructor].
    + constructor; [done|].
      assert (Hyx : (cmp y x <= 0)%Z) by (destruct (cmp_total x y); lia).
      destruct Hhd as [|z l' Hyz]; simpl; [by constructor|].
      destruct (cmp x z <=? 0)%Z; by constructor.
Qed.

Lemma stable_sort_Sorted (l : list A) :
  Sorted (fun a b => (cmp a b <= 0)%Z) (stable_sort cmp l).
Proof.
  induction l as [|x l IH]; simpl; [constructor | by apply sort_insert_Sorted].
Qed.

End SortFacts.

(** Sorting references by the records behind them is sorting the records. *)
Lemma deref_sort_insert (s : State) (cmp : string -> string -> Z)
      (r : oref) (p : ClaudianPlugin) (rs : list oref) :
  objects s !! r = Some p ->
  Forall (fun r' => is_Some (objects s !! r')) rs ->
  deref s (sort_insert (compare_at s cmp) r rs)
  = sort_insert (fun a b => cmp (id a) (id b)) p (deref s rs).
Proof.
  intros Hp. induction 1 as [|r' rs [p' Hp'] Hall IH]; simpl.
  - by rewrite Hp.
  - rewrite Hp'. simpl. unfold compare_at at 1. rewrite Hp, Hp'.
    destruct (cmp (id p) (id p') <=? 0)%Z; simpl.
    + by rewrite Hp, Hp'.
    + by rewrite Hp', IH.
Qed.

Lemma deref_stable_sort (s : State) (cmp : string -> string -> Z) (rs : list oref) :
  Forall (fun r' => is_Some (objects s !! r')) rs ->
  deref s (stable_sort (compare_at s cmp) rs)
  = stable_sort (fun a b => cmp (id a) (id b)) (deref s rs).
Proof.
  induction 1 as [|r rs [p Hp] Hall IH]; simpl; [done|].
  rewrite Hp. cbn [stable_sort]. rewrite <- IH. apply deref_sort_insert; [done|].
  by rewrite stable_sort_Permutation.
Qed.

Lemma filter_holds_valid (s : State) (f : ClaudianPlugin -> bool) (rs : list oref) :
  Forall (fun r' => is_Some (objects s !! r')) (List.filter (holds s f) rs).
Proof.
  apply Forall_forall. intros r Hr.
  apply list_elem_of_In, filter_In in Hr as [_ Hh]. unfold holds in Hh.
  destruct (objects s !! r); [eauto | done].
Qed.

Lemma compare_at_objects (s s' : State) (cmp : string -> string -> Z) :
  objects s' = objects s -> compare_at s' cmp = compare_at s cmp.
Proof. intros Ho. unfold compare_at. by rewrite Ho. Qed.

(** [getPluginsKey] computes the key the spec describes. *)
Lemma getPluginsKey_result (localeCompare : string -> string -> Z) (s : State) :
  fst (getPluginsKey localeCompare s) = spec_pluginsKey localeCompare (loaded s).
Proof.
  unfold getPluginsKey, getActivePlugins, Array_filter, Array_sort, Array_map.
  set (l := List.filter (holds s is_active) (array_get s (plugins s))).
  pose proof (array_get_new_same l s) as Hget.
  unfold array_new in *. cbn [fst snd] in *.
  set (s1 := set_arrays (arrays s ++ [l]) s) in *.
  set (a := length (arrays s)) in *.
  rewrite Hget.
  rewrite (compare_at_objects s s1) by done.
  set (sorted := stable_sort (compare_at s localeCompare) l).
  assert (Hs2 : array_get (array_set a sorted s1) a = sorted).
  { rewrite array_get_set. rewrite bool_decide_eq_true_2; [done|].
    split; [done|]. unfold s1, a. simpl. rewrite length_app. simpl. lia. }
  rewrite Hs2.
  assert (Hd : deref (array_set a sorted s1) sorted
               = spec_sortByIdentifier localeCompare (spec_activePlugins (loaded s))).
  { rewrite (deref_objects s) by done. unfold sorted.
    rewrite deref_stable_sort by apply filter_holds_valid.
    unfold l. by rewrite deref_filter. }
  rewrite Hd. unfold spec_pluginsKey.
  destruct (length sorted =? 0) eqn:Hlen; cbn [fst]; [|done].
  apply Nat.eqb_eq in Hlen. apply length_zero_iff_nil in Hlen.
  rewrite <- Hd, Hlen. done.
Qed.

Lemma append_empty (a b : string) : (a ++ b)%string = "" -> a = "" /\ b = "".
Proof. destruct a; simpl; [done | discriminate]. Qed.

Lemma key_entry_nonempty (p : ClaudianPlugin) : key_entry p <> "".
Proof.
  unfold key_entry. intros H. apply append_empty in H as [_ H]. discriminate.
Qed.

Lemma concat_empty (sep x : string) (l : list string) :
  String.concat sep (x :: l) = "" -> x = "".
Proof.
  destruct l as [|y l]; simpl; [done|]. intros H. by apply append_empty in H as [-> _].
Qed.

(** C7.  [getPluginsKey] returns the empty string exactly when
    [getEnabledCount] returns [0]. *)
Theorem getPluginsKey_empty_iff_no_active_plugin
        (localeCompare : string -> string -> Z) (s : State) :
  fst (getPluginsKey localeCompare s) = "" <-> fst (getEnabledCount s) = 0.
Proof.
  rewrite getPluginsKey_result, getEnabledCount_result.
  unfold spec_pluginsKey, spec_sortByIdentifier, spec_activePlugins.
  change (fun p => enabled p && status_eqb (status p) available) with is_active.
  set (l := List.filter is_active (loaded s)).
  rewrite <- (length_stable_sort (fun a b => localeCompare (id a) (id b)) l).
  destruct (stable_sort _ l) as [|p l']; simpl length.
  - done.
  - split; [|done]. intros H. exfalso.
    change (String.concat "|" (key_entry p :: List.map key_entry l') = "") in H.
    apply concat_empty in H. by apply key_entry_nonempty in H.
Qed.


(** ** The key does not depend on the order of the list *)

Lemma NoDup_map_filter {A B : Type} (f : A -> B) (g : A -> bool) (l : list A) :
  NoDup (List.map f l) -> NoDup (List.map f (List.filter g l)).
Proof.
  induction l as [|x l IH]; simpl; [done|].
  intros [Hx Hl]%NoDup_cons. destruct (g x); simpl; [|by apply IH].
  apply NoDup_cons. split; [|by apply IH].
  intros Hin. apply Hx. apply list_elem_of_In, in_map_iff in Hin as (y & Hy & Hin).
  apply filter_In in Hin as [Hin _].
  apply list_elem_of_In, in_map_iff. eauto.
Qed.

Lemma NoDup_map_inj_on {A B : Type} (f : A -> B) (l : list A) (x y : A) :
  NoDup (List.map f l) -> In x l -> In y l -> f x = f y -> x = y.
Proof.
  induction l as [|z l IH]; simpl; [done|].
  intros [Hz Hl]%NoDup_cons [->|Hx] [->|Hy] Heq; try done.
  - exfalso. apply Hz. rewrite Heq. by apply list_elem_of_In, in_map.
  - exfalso. apply Hz. rewrite <- Heq. by apply list_elem_of_In, in_map.
  - by apply IH.
Qed.

Lemma NoDup_of_map {A B : Type} (f : A -> B) (l : list A) :
  NoDup (List.map f l) -> NoDup l.
Proof.
  induction l as [|x l IH]; simpl; [constructor|].
  intros [Hx Hl]%NoDup_cons. apply NoDup_cons. split; [|by apply IH].
  intros Hin. apply Hx. by apply list_elem_of_In, in_map, list_elem_of_In.
Qed.

Section KeyOrder.
Variable localeCompare : string -> string -> Z.

Local Abbreviation by_id := (fun a b : ClaudianPlugin => localeCompare (id a) (id b)).
Local Abbreviation before := (fun a b : ClaudianPlugin => (localeCompare (id a) (id b) <= 0)%Z).

Lemma spec_sortByIdentifier_Permutation (ps : list ClaudianPlugin) :
  Permutation (spec_sortByIdentifier localeCompare ps) ps.
Proof. apply stable_sort_Permutation. Qed.

Hypothesis comparator : consistent_comparator localeCompare.

Lemma by_id_total (a b : ClaudianPlugin) : (by_id a b <= 0 \/ by_id b a <= 0)%Z.
Proof.
  simpl. destruct (Z_lt_le_dec 0 (localeCompare (id a) (id b))) as [Hgt|Hle].
  - right. apply (comparator_antisymmetric _ comparator) in Hgt. lia.
  - by left.
Qed.

Lemma before_transitive : Transitive before.
Proof.
  intros a b c. simpl. apply (comparator_transitive _ comparator).
Qed.

(** Each before the other: the comparison ties. *)
Lemma before_tie (a b : ClaudianPlugin) : before a b -> before b a -> by_id a b = 0%Z.
Proof.
  simpl. intros Hab Hba.
  destruct (Z_lt_le_dec (localeCompare (id a) (id b)) 0) as [Hlt|Hge]; [|lia].
  apply (comparator_antisymmetric _ comparator) in Hlt. lia.
Qed.

Lemma spec_sortByIdentifier_Sorted (ps : list ClaudianPlugin) :
  Sorted before (spec_sortByIdentifier localeCompare ps).
Proof. apply (stable_sort_Sorted by_id), by_id_total. Qed.

(** Two lists with the same records, unique identifiers and no tie between
    different identifiers sort to one list. *)
Lemma spec_sortByIdentifier_unique (l1 l2 : list ClaudianPlugin) :
  unique_ids l1 -> no_tied_ids localeCompare l1 -> Permutation l1 l2 ->
  spec_sortByIdentifier localeCompare l1 = spec_sortByIdentifier localeCompare l2.
Proof.
  intros Hu Hties Hperm.
  apply (Sorted_unique_strong before (Transitive0 := before_transitive)).
  - intros x1 x2 Hx1 Hx2 H12 H21.
    assert (In x1 l1) as Hin1.
    { apply list_elem_of_In. by rewrite <- (spec_sortByIdentifier_Permutation l1). }
    assert (In x2 l1) as Hin2.
    { apply list_elem_of_In. rewrite Hperm.
      by rewrite <- (spec_sortByIdentifier_Permutation l2). }
    apply (NoDup_map_inj_on id l1); [done|done|done|].
    apply Hties; [done|done|]. by apply before_tie.
  - apply spec_sortByIdentifier_Sorted.
  - apply spec_sortByIdentifier_Sorted.
  - by rewrite !spec_sortByIdentifier_Permutation.
Qed.

Lemma spec_pluginsKey_same_active (ps1 ps2 : list ClaudianPlugin) :
  unique_ids ps1 -> unique_ids ps2 ->
  no_tied_ids localeCompare (spec_activePlugins ps1) ->
  (forall p, In p (spec_activePlugins ps1) <-> In p (spec_activePlugins ps2)) ->
  spec_pluginsKey localeCompare ps1 = spec_pluginsKey localeCompare ps2.
Proof.
  intros Hu1 Hu2 Hties Hsame. unfold spec_pluginsKey.
  rewrite (spec_sortByIdentifier_unique (spec_activePlugins ps1) (spec_activePlugins ps2));
    [done | by apply NoDup_map_filter | done |].
  apply NoDup_Permutation.
  - by apply (NoDup_of_map id), NoDup_map_filter.
  - by apply (NoDup_of_map id), NoDup_map_filter.
  - intros p. rewrite !list_elem_of_In. apply Hsame.
Qed.

End KeyOrder.

(** Comparison by code units is a consistent comparator without ties. *)
Lemma codeUnitCompare_le (a b : string) :
  (codeUnitCompare a b <= 0)%Z <-> a = b \/ OrderedTypeEx.String_as_OT.lt a b.
Proof.
  unfold codeUnitCompare.
  destruct (String.compare a b) eqn:Hc.
  - apply OrderedTypeEx.String_as_OT.cmp_eq in Hc. split; [by left | lia].
  - apply OrderedTypeEx.String_as_OT.cmp_lt in Hc. split; [by right | lia].
  - split; [lia|]. intros [->|Hlt]; exfalso.
    + assert (String.compare b b = Eq) as Heq
        by (by apply OrderedTypeEx.String_as_OT.cmp_eq).
      congruence.
    + apply OrderedTypeEx.String_as_OT.cmp_lt in Hlt.
      unfold OrderedTypeEx.String_as_OT.cmp in Hlt. congruence.
Qed.

Lemma codeUnitCompare_comparator : consistent_comparator codeUnitCompare.
Proof.
  split.
  - intros a b. unfold codeUnitCompare. rewrite (String.compare_antisym b a).
    destruct (String.compare a b); simpl; lia.
  - intros a b c. rewrite !codeUnitCompare_le.
    intros [->|Hab] [->|Hbc]; auto.
    right. by apply (OrderedTypeEx.String_as_OT.lt_trans a b c).
Qed.

Lemma codeUnitCompare_no_ties (a b : string) : codeUnitCompare a b = 0%Z -> a = b.
Proof.
  unfold codeUnitCompare.
  destruct (String.compare a b) eqn:Hc; try discriminate.
  intros _. by apply String.compare_eq_iff.
Qed.

(** The comparison that ignores U+007F is a consistent comparator too. *)
Lemma delIgnoringCompare_comparator : consistent_comparator delIgnoringCompare.
Proof.
  split.
  - intros a b. apply (comparator_antisymmetric _ codeUnitCompare_comparator).
  - intros a b c. apply (comparator_transitive _ codeUnitCompare_comparator).
Qed.

(** C2, as stated, fails inside the data model.  Two managers hold the same
    two active plugins, with the different identifiers [a] and [a\u007f],
    loaded in opposite orders.  Under every comparison that ties on these two
    identifiers the stable sort leaves each list in load order, and the two
    keys differ.  The comparison that ignores U+007F is a consistent
    comparator with that tie. *)
Lemma tied_identifiers_keep_load_order :
  unique_ids (loaded (tied_loaded_in_order [tied_a; tied_a_del]))
  /\ unique_ids (loaded (tied_loaded_in_order [tied_a_del; tied_a]))
  /\ (forall p, In p (spec_activePlugins (loaded (tied_loaded_in_order [tied_a; tied_a_del])))
                <-> In p (spec_activePlugins (loaded (tied_loaded_in_order [tied_a_del; tied_a]))))
  /\ (forall cmp : string -> string -> Z,
        cmp id_a id_a_del = 0%Z -> cmp id_a_del id_a = 0%Z ->
        fst (getPluginsKey cmp (tied_loaded_in_order [tied_a; tied_a_del]))
          = (key_entry tied_a ++ "|" ++ key_entry tied_a_del)%string
        /\ fst (getPluginsKey cmp (tied_loaded_in_order [tied_a_del; tied_a]))
          = (key_entry tied_a_del ++ "|" ++ key_entry tied_a)%string)
  /\ String.eqb (key_entry tied_a ++ "|" ++ key_entry tied_a_del)
                (key_entry tied_a_del ++ "|" ++ key_entry tied_a) = false
  /\ consistent_comparator delIgnoringCompare
  /\ delIgnoringCompare id_a id_a_del = 0%Z
  /\ delIgnoringCompare id_a_del id_a = 0%Z
  /\ String.eqb
       (fst (getPluginsKey delIgnoringCompare (tied_loaded_in_order [tied_a; tied_a_del])))
       (fst (getPluginsKey delIgnoringCompare (tied_loaded_in_order [tied_a_del; tied_a])))
     = false.
Proof.
  split; [unfold unique_ids; compute_done|].
  split; [unfold unique_ids; compute_done|].
  split; [vm_compute; intros p; tauto|].
  split.
  { intros cmp Hab Hba. cbv in Hab, Hba. split.
    - rewrite getPluginsKey_result. cbv -[Z.leb]. by rewrite Hab.
    - rewrite getPluginsKey_result. cbv -[Z.leb]. by rewrite Hba. }
  split; [reflexivity|].
  split; [exact delIgnoringCompare_comparator|].
  split; [reflexivity|].
  split; reflexivity.
Qed.

(** C2, amended.  In every state and for every comparison, [getPluginsKey]
    is the key of the spec's algorithm: the active plugins, sorted by
    identifier with the locale's comparison, each mapped to
    [<identifier>:<manifestPath>], joined with [|]; and the sorted list holds
    exactly the active plugins.  For a consistent comparator, as
    [localeCompare] is, the sorted list is ordered by the comparison, and two
    states with the same set of active plugins give the same key, whatever
    the order of their stored lists, provided identifiers are unique in each
    loaded list and no two different identifiers of the active plugins
    compare as equal. *)
Theorem getPluginsKey_is_sorted_join (localeCompare : string -> string -> Z) :
  (forall s, fst (getPluginsKey localeCompare s) = spec_pluginsKey localeCompare (loaded s))
  /\ (forall s,
        Permutation (spec_sortByIdentifier localeCompare (spec_activePlugins (loaded s)))
                    (spec_activePlugins (loaded s)))
  /\ (consistent_comparator localeCompare ->
      (forall s,
         Sorted (fun a b => (localeCompare (id a) (id b) <= 0)%Z)
                (spec_sortByIdentifier localeCompare (spec_activePlugins (loaded s))))
      /\ (forall s1 s2,
            unique_ids (loaded s1) -> unique_ids (loaded s2) ->
            no_tied_ids localeCompare (spec_activePlugins (loaded s1)) ->
            (forall p, In p (spec_activePlugins (loaded s1))
                       <-> In p (spec_activePlugins (loaded s2))) ->
            fst (getPluginsKey localeCompare s1) = fst (getPluginsKey localeCompare s2))).
Proof.
  split; [apply getPluginsKey_result|]. split.
  - intros s. apply spec_sortByIdentifier_Permutation.
  - intros Hc. split.
    + intros s. by apply spec_sortByIdentifier_Sorted.
    + intros s1 s2 Hu1 Hu2 Hties Hsame. rewrite !getPluginsKey_result.
      by apply spec_pluginsKey_same_active.
Qed.

Lemma getPluginsKey_is_sorted_join_witness :
  fst (getPluginsKey codeUnitCompare (loaded_in_order [enabled_b; enabled_a]))
  = fst (getPluginsKey codeUnitCompare (loaded_in_order [enabled_a; enabled_b])).
Proof.
  apply (proj2 (proj2 (proj2 (getPluginsKey_is_sorted_join codeUnitCompare))
                      codeUnitCompare_comparator)).
  - unfold unique_ids. compute_done.
  - unfold unique_ids. compute_done.
  - intros p q _ _. apply codeUnitCompare_no_ties.
  - vm_compute. intros p. tauto.
Defined.

(** The second scenario of the spec: loaded as [b], [a], the key lists [a]
    first. *)
Example getPluginsKey_sorted_not_load_order :
  fst (getPluginsKey codeUnitCompare (loaded_in_order [enabled_b; enabled_a]))
  = "plugin-a:/path/a|plugin-b:/path/b".
Proof. reflexivity. Qed.

(** ** Queries *)

Lemma insert_snoc {A : Type} (l : list A) (x y : A) :
  <[length l := y]> (l ++ [x])%list = (l ++ [y])%list.
Proof. induction l as [|z l IH]; simpl; [done | by rewrite IH]. Qed.

(** The only array [getPluginsKey] writes is the one it allocated. *)
Lemma getPluginsKey_arrays (localeCompare : string -> string -> Z) (s : State) :
  arrays (snd (getPluginsKey localeCompare s))
  = (arrays s
     ++ [stable_sort (compare_at s localeCompare)
           (List.filter (holds s is_active) (stored s))])%list.
Proof.
  unfold getPluginsKey, getActivePlugins, Array_filter, Array_sort.
  set (l := List.filter (holds s is_active) (array_get s (plugins s))).
  pose proof (array_get_new_same l s) as Hget.
  unfold array_new in *. cbn [fst snd] in *. rewrite Hget.
  rewrite (compare_at_objects s (set_arrays (arrays s ++ [l]) s)) by done.
  set (s2 := array_set _ _ _).
  assert (Ha : arrays s2 = (arrays s ++ [stable_sort (compare_at s localeCompare) l])%list)
    by apply insert_snoc.
  by destruct (length (array_get s2 (length (arrays s))) =? 0).
Qed.

(** The stored list is an allocated array in every state of a manager whose
    registry returns arrays that exist. *)
Lemma flip_fields (x : string) (s : State) :
  (arrays (snd (togglePlugin x s)) = arrays s /\ plugins (snd (togglePlugin x s)) = plugins s)
  /\ (arrays (snd (enablePlugin x s)) = arrays s /\ plugins (snd (enablePlugin x s)) = plugins s)
  /\ (arrays (snd (disablePlugin x s)) = arrays s /\ plugins (snd (disablePlugin x s)) = plugins s).
Proof.
  unfold togglePlugin, enablePlugin, disablePlugin.
  destruct (find_by_id x s) as [r|]; [|done].
  by destruct (holds s enabled r).
Qed.

Lemma exec_allocated (localeCompare : string -> string -> Z) (c : Call) (s : State) :
  registry_allocated c ->
  plugins s < length (arrays s) ->
  plugins (exec localeCompare s c) < length (arrays (exec localeCompare s c)).
Proof.
  intros Hc Hs. destruct (is_query c) eqn:Hq.
  - destruct (query_unchanged localeCompare c s Hq) as ((_ & Hp & _ & Hlen & _) & _).
    rewrite Hp. lia.
  - destruct c; try discriminate; cbn [exec registry_allocated] in *.
    + unfold setEnabledPluginIds.
      destruct (apply_enabled_state_fields
                  (set_enabledPluginIds (JsSet.of_array ids) s)) as (-> & -> & _). done.
    + unfold loadPlugins.
      destruct (apply_enabled_state_fields
                  (mkState (answer_objects answer) (answer_arrays answer)
                           (answer_result answer) (enabledPluginIds s))) as (-> & -> & _).
      done.
    + destruct (flip_fields pluginId s) as ((-> & ->) & _). done.
    + destruct (flip_fields pluginId s) as (_ & (-> & ->) & _). done.
    + destruct (flip_fields pluginId s) as (_ & _ & (-> & ->)). done.
Qed.

Lemma reachable_allocated (localeCompare : string -> string -> Z)
      (o : list ClaudianPlugin) (a : list (list oref)) (calls : list Call) :
  Forall registry_allocated calls ->
  plugins (run localeCompare calls (new_PluginManager o a))
  < length (arrays (run localeCompare calls (new_PluginManager o a))).
Proof.
  intros Hall.
  assert (Hinit : plugins (new_PluginManager o a) < length (arrays (new_PluginManager o a))).
  { simpl. rewrite length_app. simpl. lia. }
  revert Hinit. generalize (new_PluginManager o a).
  induction Hall as [|c calls Hc Hall IH]; intros s Hs; [done|].
  simpl. apply IH. by apply exec_allocated.
Qed.

(** C10.  No query changes the state: after [getPlugins],
    [getActivePluginConfigs], [getUnavailableEnabledPlugins],
    [hasEnabledPlugins], [getEnabledCount], [getPluginsKey], [hasPlugins] or
    [getPluginCommandPaths], the records, the fields of the manager and every
    array that existed before are as they were.  [getPluginsKey] sorts the
    array its filter allocated, so the stored list keeps its order;
    [getPlugins] returns a new array with the stored elements, and whatever
    the caller writes into it leaves the stored list alone.  The stored list
    is an allocated array, as it is in every state of a running manager. *)
Theorem queries_leave_the_state_unchanged
        (localeCompare : string -> string -> Z) (s : State) :
  plugins s < length (arrays s) ->
  (unchanged s (snd (getPlugins s))
   /\ unchanged s (snd (getActivePluginConfigs s))
   /\ unchanged s (snd (getUnavailableEnabledPlugins s))
   /\ unchanged s (snd (hasEnabledPlugins s))
   /\ unchanged s (snd (getEnabledCount s))
   /\ unchanged s (snd (getPluginsKey localeCompare s))
   /\ unchanged s (snd (hasPlugins s))
   /\ unchanged s (snd (getPluginCommandPaths s)))
  /\ (stored (snd (getPluginsKey localeCompare s)) = stored s
      /\ exists sorted, arrays (snd (getPluginsKey localeCompare s)) = (arrays s ++ [sorted])%list)
  /\ (fst (getPlugins s) <> plugins s
      /\ array_get (snd (getPlugins s)) (fst (getPlugins s)) = stored s
      /\ forall l, stored (array_set (fst (getPlugins s)) l (snd (getPlugins s))) = stored s
                   /\ objects (array_set (fst (getPlugins s)) l (snd (getPlugins s)))
                      = objects s).
Proof.
  intros Halloc. split; [|split].
  - split; [exact (proj1 (query_unchanged localeCompare call_getPlugins s eq_refl))|].
    split; [exact (proj1 (query_unchanged localeCompare call_getActivePluginConfigs s eq_refl))|].
    split; [exact (proj1 (query_unchanged localeCompare call_getUnavailableEnabledPlugins s eq_refl))|].
    split; [exact (proj1 (query_unchanged localeCompare call_hasEnabledPlugins s eq_refl))|].
    split; [exact (proj1 (query_unchanged localeCompare call_getEnabledCount s eq_refl))|].
    split; [exact (proj1 (query_unchanged localeCompare call_getPluginsKey s eq_refl))|].
    split; [exact (proj1 (query_unchanged localeCompare call_hasPlugins s eq_refl))|].
    exact (proj1 (query_unchanged localeCompare call_getPluginCommandPaths s eq_refl)).
  - split; [apply getPluginsKey_unchanged|].
    eexists. apply getPluginsKey_arrays.
  - unfold getPlugins, Array_spread, array_new. cbn [fst snd].
    split; [lia|]. split.
    + apply (array_get_new_same (array_get s (plugins s)) s).
    + intros l. split; [|done].
      unfold stored. cbn [plugins array_set set_arrays].
      rewrite array_get_set. rewrite bool_decide_eq_false_2 by lia.
      apply (unchanged_array_get s); [apply array_new_unchanged | done].
Qed.

Lemma queries_leave_the_state_unchanged_witness :
  unchanged (loaded_in_order [enabled_b; enabled_a])
            (snd (getPluginsKey codeUnitCompare (loaded_in_order [enabled_b; enabled_a])))
  /\ stored (snd (getPluginsKey codeUnitCompare (loaded_in_order [enabled_b; enabled_a])))
     = stored (loaded_in_order [enabled_b; enabled_a]).
Proof.
  assert (Halloc : plugins (loaded_in_order [enabled_b; enabled_a])
                   < length (arrays (loaded_in_order [enabled_b; enabled_a])))
    by (vm_compute; lia).
  pose proof (queries_leave_the_state_unchanged codeUnitCompare
                (loaded_in_order [enabled_b; enabled_a]) Halloc) as (Hq & (Hst & _) & _).
  split; [apply Hq | exact Hst].
Defined.

(** * Further properties of the class *)

(** ** The enabled-state loop, on the loaded list *)

Lemma state_eq (s s' : State) :
  objects s = objects s' -> arrays s = arrays s' -> plugins s = plugins s' ->
  enabledPluginIds s = enabledPluginIds s' -> s = s'.
Proof. destruct s, s'. simpl. by intros -> -> -> ->. Qed.

Lemma deref_pointwise (g : ClaudianPlugin -> ClaudianPlugin) (s s' : State)
      (rs : list oref) :
  (forall r, In r rs -> objects s' !! r = g <$> (objects s !! r)) ->
  deref s' rs = List.map g (deref s rs).
Proof.
  induction rs as [|r rs IH]; intros Hg; simpl; [done|].
  rewrite (Hg r) by (by left).
  destruct (objects s !! r); simpl; rewrite IH; try done;
    intros r' Hr'; apply Hg; by right.
Qed.

Lemma apply_enabled_state_loaded (s : State) :
  loaded (apply_enabled_state s)
  = List.map (restamp (enabledPluginIds s)) (loaded s).
Proof.
  unfold loaded. rewrite apply_enabled_state_stored.
  apply deref_pointwise. intros r Hr.
  rewrite apply_enabled_state_lookup.
  by rewrite bool_decide_eq_true_2 by (by apply list_elem_of_In).
Qed.

(** Running the loop for a new set after it ran for an old one is running it
    for the new set. *)
Lemma apply_enabled_state_again (e : JsSet.t) (s : State) :
  apply_enabled_state (set_enabledPluginIds e (apply_enabled_state s))
  = apply_enabled_state (set_enabledPluginIds e s).
Proof.
  destruct (apply_enabled_state_fields s) as (Ha & Hp & He).
  assert (Hst : stored (apply_enabled_state s) = stored s)
    by apply apply_enabled_state_stored.
  apply state_eq.
  - apply list_eq. intros i. rewrite !apply_enabled_state_lookup.
    cbn [objects arrays plugins enabledPluginIds set_enabledPluginIds].
    rewrite apply_enabled_state_lookup.
    change (array_get (set_enabledPluginIds e (apply_enabled_state s))
                      (plugins (apply_enabled_state s)))
      with (stored (apply_enabled_state s)).
    change (array_get (set_enabledPluginIds e s) (plugins s)) with (stored s).
    change (array_get s (plugins s)) with (stored s).
    rewrite Hst. destruct (objects s !! i) as [p|]; [|done]. simpl.
    by case_bool_decide.
  - destruct (apply_enabled_state_fields
                (set_enabledPluginIds e (apply_enabled_state s))) as (-> & _ & _).
    destruct (apply_enabled_state_fields (set_enabledPluginIds e s)) as (-> & _ & _).
    done.
  - destruct (apply_enabled_state_fields
                (set_enabledPluginIds e (apply_enabled_state s))) as (_ & -> & _).
    destruct (apply_enabled_state_fields (set_enabledPluginIds e s)) as (_ & -> & _).
    done.
  - destruct (apply_enabled_state_fields
                (set_enabledPluginIds e (apply_enabled_state s))) as (_ & _ & ->).
    destruct (apply_enabled_state_fields (set_enabledPluginIds e s)) as (_ & _ & ->).
    done.
Qed.

(** ** [setEnabledPluginIds] and [loadPlugins] *)

Lemma NoDup_add (x : string) (e : JsSet.t) : NoDup e -> NoDup (JsSet.add x e).
Proof.
  intros He. unfold JsSet.add. destruct (JsSet.has e x) eqn:Hx; [done|].
  apply NoDup_app. split; [done|]. split; [|apply NoDup_singleton].
  intros y Hy Hyx. apply list_elem_of_singleton in Hyx as ->.
  apply list_elem_of_In, has_true_iff in Hy. congruence.
Qed.

Lemma NoDup_delete (x : string) (e : JsSet.t) : NoDup e -> NoDup (JsSet.delete x e).
Proof.
  intros He. unfold JsSet.delete. induction He as [|y e Hy He IH]; simpl.
  - constructor.
  - destruct (negb (String.eqb x y)); [|done].
    constructor; [|done]. intros Hin. apply Hy.
    apply list_elem_of_In, filter_In in Hin as [Hin _]. by apply list_elem_of_In.
Qed.

Lemma NoDup_of_array (ids : list string) : NoDup (JsSet.of_array ids).
Proof.
  unfold JsSet.of_array.
  assert (H : forall e, NoDup e -> NoDup (fold_left (fun s x => JsSet.add x s) ids e)).
  { induction ids as [|x ids IH]; intros e He; simpl; [done|].
    by apply IH, NoDup_add. }
  apply H. constructor.
Qed.

Lemma In_of_array (ids : list string) (y : string) :
  In y (JsSet.to_array (JsSet.of_array ids)) <-> In y ids.
Proof.
  rewrite <- has_true_iff, has_of_array, existsb_exists. split.
  - intros (z & Hz & Heq). apply String.eqb_eq in Heq. by subst.
  - intros Hy. exists y. split; [done | apply String.eqb_refl].
Qed.

(** X1.  [loadPlugins] stores the registry's list as it is, in the
    registry's order; of each record only [enabled] is written, to the
    membership of the record's identifier in the Enabled-ID Set.  The flag
    the registry supplied is not read. *)
Theorem loadPlugins_stores_the_registry_list (answer : StorageAnswer) (s : State) :
  loaded (loadPlugins answer s)
  = List.map (fun p => with_enabled (JsSet.has (enabledPluginIds s) (id p)) p)
             (answered answer).
Proof.
  unfold loadPlugins. rewrite apply_enabled_state_loaded. cbn [enabledPluginIds].
  f_equal. by apply loaded_view.
Qed.

(** X2.  [setEnabledPluginIds(ids)] makes the Enabled-ID Set the set of the
    elements of [ids] (an identifier given twice is kept once), keeps the
    loaded list and its order, and writes of each record only [enabled], to
    the membership of its identifier in [ids]. *)
Theorem setEnabledPluginIds_replaces_the_set (ids : list string) (s : State) :
  (forall y, In y (JsSet.to_array (enabledPluginIds (setEnabledPluginIds ids s)))
             <-> In y ids)
  /\ NoDup (JsSet.to_array (enabledPluginIds (setEnabledPluginIds ids s)))
  /\ loaded (setEnabledPluginIds ids s)
     = List.map (fun p => with_enabled (existsb (String.eqb (id p)) ids) p) (loaded s).
Proof.
  unfold setEnabledPluginIds.
  destruct (apply_enabled_state_fields
              (set_enabledPluginIds (JsSet.of_array ids) s)) as (_ & _ & He).
  rewrite He. cbn [enabledPluginIds set_enabledPluginIds].
  split; [intros y; apply In_of_array|]. split; [apply NoDup_of_array|].
  rewrite apply_enabled_state_loaded. cbn [enabledPluginIds set_enabledPluginIds].
  rewrite (loaded_view s (set_enabledPluginIds (JsSet.of_array ids) s)) by done.
  apply map_ext. intros p. unfold restamp. by rewrite has_of_array.
Qed.

(** X3.  Of two successive calls of [setEnabledPluginIds] only the last
    counts: the state is the one the last call alone gives. *)
Theorem setEnabledPluginIds_last_call_wins (ids ids' : list string) (s : State) :
  setEnabledPluginIds ids' (setEnabledPluginIds ids s) = setEnabledPluginIds ids' s.
Proof.
  unfold setEnabledPluginIds. rewrite apply_enabled_state_again. done.
Qed.

(** X4.  [setEnabledPluginIds] may come before or after [loadPlugins]: both
    orders give the same state. *)
Theorem setEnabledPluginIds_before_or_after_loadPlugins
        (ids : list string) (answer : StorageAnswer) (s : State) :
  loadPlugins answer (setEnabledPluginIds ids s)
  = setEnabledPluginIds ids (loadPlugins answer s).
Proof.
  unfold setEnabledPluginIds, loadPlugins.
  rewrite apply_enabled_state_again.
  destruct (apply_enabled_state_fields
              (set_enabledPluginIds (JsSet.of_array ids) s)) as (_ & _ & ->).
  done.
Qed.

(** ** [togglePlugin], [enablePlugin], [disablePlugin] *)

Lemma enablePlugin_found (x : string) (s : State) (r : oref) :
  find_by_id x s = Some r ->
  snd (enablePlugin x s)
  = if holds s enabled r then s
    else write_enabled r true
           (set_enabledPluginIds (JsSet.add x (enabledPluginIds s)) s).
Proof. intros Hf. unfold enablePlugin. rewrite Hf. by destruct (holds s enabled r). Qed.

Lemma disablePlugin_found (x : string) (s : State) (r : oref) :
  find_by_id x s = Some r ->
  snd (disablePlugin x s)
  = if holds s enabled r
    then write_enabled r false
           (set_enabledPluginIds (JsSet.delete x (enabledPluginIds s)) s)
    else s.
Proof. intros Hf. unfold disablePlugin. rewrite Hf. by destruct (holds s enabled r). Qed.

Lemma enablePlugin_not_found (x : string) (s : State) :
  find_by_id x s = None -> snd (enablePlugin x s) = s.
Proof. intros Hf. unfold enablePlugin. by rewrite Hf. Qed.

Lemma disablePlugin_not_found (x : string) (s : State) :
  find_by_id x s = None -> snd (disablePlugin x s) = s.
Proof. intros Hf. unfold disablePlugin. by rewrite Hf. Qed.

(** What the three calls return is the set they leave. *)
Lemma incremental_result (x : string) (s : State) :
  fst (togglePlugin x s) = JsSet.to_array (enabledPluginIds (snd (togglePlugin x s)))
  /\ fst (enablePlugin x s) = JsSet.to_array (enabledPluginIds (snd (enablePlugin x s)))
  /\ fst (disablePlugin x s) = JsSet.to_array (enabledPluginIds (snd (disablePlugin x s))).
Proof.
  unfold togglePlugin, enablePlugin, disablePlugin.
  by destruct (find_by_id x s).
Qed.

(** X5.  [enablePlugin] and [disablePlugin] with an identifier that no
    loaded plugin has change nothing and return the members of the
    Enabled-ID Set. *)
Theorem enable_disable_unknown_identifier (x : string) (s : State) :
  ~ In x (List.map id (loaded s)) ->
  enablePlugin x s = (JsSet.to_array (enabledPluginIds s), s)
  /\ disablePlugin x s = (JsSet.to_array (enabledPluginIds s), s).
Proof.
  intros Hx. apply find_by_id_None in Hx.
  unfold enablePlugin, disablePlugin. by rewrite Hx.
Qed.

Lemma enable_disable_unknown_identifier_witness :
  enablePlugin "nonexistent-plugin" scenario_state
    = (JsSet.to_array (enabledPluginIds scenario_state), scenario_state)
  /\ disablePlugin "nonexistent-plugin" scenario_state
    = (JsSet.to_array (enabledPluginIds scenario_state), scenario_state).
Proof.
  apply enable_disable_unknown_identifier.
  vm_compute. intros [H|[]]. discriminate.
Defined.

Lemma enablePlugin_state_idempotent (x : string) (s : State) :
  snd (enablePlugin x (snd (enablePlugin x s))) = snd (enablePlugin x s).
Proof.
  destruct (find_by_id x s) as [r|] eqn:Hf.
  - destruct (find_by_id_Some x s r Hf) as (_ & p & Hp & _).
    rewrite (enablePlugin_found x s r Hf).
    destruct (holds s enabled r) eqn:He.
    + by rewrite (enablePlugin_found x s r Hf), He.
    + set (s1 := write_enabled r true _).
      assert (Hf1 : find_by_id x s1 = Some r) by (unfold s1; by rewrite flip_find).
      assert (He1 : holds s1 enabled r = true)
        by (unfold s1; apply holds_enabled_written; simpl; eauto).
      by rewrite (enablePlugin_found x s1 r Hf1), He1.
  - by rewrite !(enablePlugin_not_found x s Hf).
Qed.

Lemma disablePlugin_state_idempotent (x : string) (s : State) :
  snd (disablePlugin x (snd (disablePlugin x s))) = snd (disablePlugin x s).
Proof.
  destruct (find_by_id x s) as [r|] eqn:Hf.
  - destruct (find_by_id_Some x s r Hf) as (_ & p & Hp & _).
    rewrite (disablePlugin_found x s r Hf).
    destruct (holds s enabled r) eqn:He.
    + set (s1 := write_enabled r false _).
      assert (Hf1 : find_by_id x s1 = Some r) by (unfold s1; by rewrite flip_find).
      assert (He1 : holds s1 enabled r = false)
        by (unfold s1; apply holds_enabled_written; simpl; eauto).
      by rewrite (disablePlugin_found x s1 r Hf1), He1.
    + by rewrite (disablePlugin_found x s r Hf), He.
  - by rewrite !(disablePlugin_not_found x s Hf).
Qed.

(** X6.  [enablePlugin] and [disablePlugin] are idempotent: a second call
    with the same identifier returns the same array and leaves the state of
    the first call, in every state. *)
Theorem enable_disable_idempotent (x : string) (s : State) :
  enablePlugin x (snd (enablePlugin x s)) = enablePlugin x s
  /\ disablePlugin x (snd (disablePlugin x s)) = disablePlugin x s.
Proof.
  split.
  - rewrite (surjective_pairing (enablePlugin x (snd (enablePlugin x s)))).
    rewrite (surjective_pairing (enablePlugin x s)) at 3.
    rewrite !(proj1 (proj2 (incremental_result x _))).
    by rewrite enablePlugin_state_idempotent.
  - rewrite (surjective_pairing (disablePlugin x (snd (disablePlugin x s)))).
    rewrite (surjective_pairing (disablePlugin x s)) at 3.
    rewrite !(proj2 (proj2 (incremental_result x _))).
    by rewrite disablePlugin_state_idempotent.
Qed.

Lemma find_by_id_loaded (x : string) (s : State) :
  In x (List.map id (loaded s)) -> exists r, find_by_id x s = Some r.
Proof.
  intros Hx. destruct (find_by_id x s) as [r|] eqn:Hf; [eauto|].
  by apply find_by_id_None in Hf.
Qed.

Lemma incremental_membership (x : string) (s : State) :
  first_consistent s ->
  In x (List.map id (loaded s)) ->
  JsSet.has (enabledPluginIds (snd (enablePlugin x s))) x = true
  /\ JsSet.has (enabledPluginIds (snd (disablePlugin x s))) x = false
  /\ JsSet.has (enabledPluginIds (snd (togglePlugin x s))) x
     = negb (JsSet.has (enabledPluginIds s) x).
Proof.
  intros Hc Hx. destruct (find_by_id_loaded x s Hx) as [r Hf].
  pose proof (Hc x r Hf) as Hb.
  rewrite (enablePlugin_found x s r Hf), (disablePlugin_found x s r Hf),
          (togglePlugin_found x s r Hf).
  destruct (holds s enabled r); rewrite <- Hb;
    cbn [enabledPluginIds write_enabled set_objects set_enabledPluginIds negb];
    rewrite ?has_add_self, ?has_delete_self; auto.
Qed.

(** X7.  In any state a manager reaches, for the identifier [x] of a loaded
    plugin: after [enablePlugin x] the Enabled-ID Set holds [x], after
    [disablePlugin x] it does not, and [togglePlugin x] inverts the
    membership of [x]. *)
Theorem incremental_calls_set_the_membership
        (localeCompare : string -> string -> Z)
        (o : list ClaudianPlugin) (a : list (list oref))
        (calls : list Call) (x : string) :
  In x (List.map id (loaded (run localeCompare calls (new_PluginManager o a)))) ->
  JsSet.has (enabledPluginIds
               (snd (enablePlugin x (run localeCompare calls (new_PluginManager o a))))) x
    = true
  /\ JsSet.has (enabledPluginIds
                 (snd (disablePlugin x (run localeCompare calls (new_PluginManager o a))))) x
     = false
  /\ JsSet.has (enabledPluginIds
                 (snd (togglePlugin x (run localeCompare calls (new_PluginManager o a))))) x
     = negb (JsSet.has (enabledPluginIds (run localeCompare calls (new_PluginManager o a))) x).
Proof.
  apply incremental_membership, reachable_first_consistent.
Qed.

Lemma incremental_calls_set_the_membership_witness :
  JsSet.has (enabledPluginIds
               (snd (enablePlugin "plugin-a"
                       (run codeUnitCompare session
                            (mock_manager [plugin_b; plugin_a; plugin_c]))))) "plugin-a"
    = true
  /\ JsSet.has (enabledPluginIds
                 (snd (disablePlugin "plugin-a"
                         (run codeUnitCompare session
                              (mock_manager [plugin_b; plugin_a; plugin_c]))))) "plugin-a"
     = false
  /\ JsSet.has (enabledPluginIds
                 (snd (togglePlugin "plugin-a"
                         (run codeUnitCompare session
                              (mock_manager [plugin_b; plugin_a; plugin_c]))))) "plugin-a"
     = negb (JsSet.has (enabledPluginIds
                          (run codeUnitCompare session
                               (mock_manager [plugin_b; plugin_a; plugin_c]))) "plugin-a").
Proof.
  apply (incremental_calls_set_the_membership codeUnitCompare).
  vm_compute. right. by left.
Defined.

(** ** What the manager never writes *)

Lemma deref_map_proj {B : Type} (g : ClaudianPlugin -> B) (s s' : State) (rs : list oref) :
  (forall i, g <$> (objects s' !! i) = g <$> (objects s !! i)) ->
  List.map g (deref s' rs) = List.map g (deref s rs).
Proof.
  intros Hg. induction rs as [|r rs IH]; simpl; [done|].
  specialize (Hg r).
  destruct (objects s' !! r), (objects s !! r); simpl in *; try done.
  injection Hg as ->. by rewrite IH.
Qed.

Lemma alter_keeps_proj {B : Type} (g : ClaudianPlugin -> B)
      (f : ClaudianPlugin -> ClaudianPlugin) (o : list ClaudianPlugin) (r i : nat) :
  (forall p, g (f p) = g p) ->
  g <$> (alter f r o !! i) = g <$> (o !! i).
Proof.
  intros Hf. rewrite list_lookup_alter. case_decide; [subst|done].
  destruct (o !! i); simpl; [by rewrite Hf | done].
Qed.

Lemma write_enabled_forget (r : oref) (b : bool) (e : JsSet.t) (s : State) :
  List.map forget_enabled (loaded (write_enabled r b (set_enabledPluginIds e s)))
  = List.map forget_enabled (loaded s).
Proof.
  apply (deref_map_proj forget_enabled s). intros i.
  by apply alter_keeps_proj.
Qed.

Lemma apply_enabled_state_forget (s : State) :
  List.map forget_enabled (loaded (apply_enabled_state s))
  = List.map forget_enabled (loaded s).
Proof.
  rewrite apply_enabled_state_loaded, map_map. by apply map_ext.
Qed.

(** X8.  No call writes any field of a plugin other than [enabled], and no
    call but [loadPlugins] adds, removes or reorders plugins: with the flags
    blanked, the loaded list after a call is the loaded list before it, and
    after [loadPlugins] it is the registry's list.  In particular [status],
    [pluginPath] and [installPath] are never set by the manager. *)
Theorem only_the_enabled_flag_is_written
        (localeCompare : string -> string -> Z) (c : Call) (s : State) :
  List.map forget_enabled (loaded (exec localeCompare s c))
  = match c with
    | call_loadPlugins answer => List.map forget_enabled (answered answer)
    | _ => List.map forget_enabled (loaded s)
    end.
Proof.
  destruct (is_query c) eqn:Hq.
  - destruct (query_unchanged localeCompare c s Hq) as ((Ho & _) & Hst).
    rewrite (loaded_view s) by done. by destruct c.
  - destruct c; try discriminate; cbn [exec].
    + unfold setEnabledPluginIds. rewrite apply_enabled_state_forget.
      f_equal. by apply loaded_view.
    + unfold loadPlugins. rewrite apply_enabled_state_forget.
      f_equal. by apply loaded_view.
    + unfold togglePlugin. destruct (find_by_id pluginId s) as [r|]; [|done].
      destruct (holds s enabled r); apply write_enabled_forget.
    + unfold enablePlugin. destruct (find_by_id pluginId s) as [r|]; [|done].
      destruct (holds s enabled r); [done | apply write_enabled_forget].
    + unfold disablePlugin. destruct (find_by_id pluginId s) as [r|]; [|done].
      destruct (holds s enabled r); [apply write_enabled_forget | done].
Qed.

(** ** The views over the active plugins, together *)

Lemma hasEnabledPlugins_result (s : State) :
  fst (hasEnabledPlugins s) = (0 <? length (List.filter is_active (loaded s))).
Proof.
  rewrite <- getEnabledCount_result. unfold hasEnabledPlugins, getEnabledCount.
  by destruct (getActivePlugins s).
Qed.

Lemma same_active_same_views (localeCompare : string -> string -> Z) (s s' : State) :
  List.filter is_active (loaded s') = List.filter is_active (loaded s) ->
  same_active_views localeCompare s s'.
Proof.
  intros Heq. unfold same_active_views.
  rewrite !getActivePluginConfigs_result, !getPluginCommandPaths_result,
          !getEnabledCount_result, !hasEnabledPlugins_result, !getPluginsKey_result.
  unfold spec_pluginsKey, spec_activePlugins.
  change (fun p => enabled p && status_eqb (status p) available) with is_active.
  by rewrite Heq.
Qed.

(** X9.  The views over the active plugins agree on their number:
    [getActivePluginConfigs] and [getPluginCommandPaths] have
    [getEnabledCount] entries each, [hasEnabledPlugins] says whether that
    number is positive, and it can only be positive when [hasPlugins]. *)
Theorem active_views_agree (s : State) :
  length (fst (getActivePluginConfigs s)) = fst (getEnabledCount s)
  /\ length (fst (getPluginCommandPaths s)) = fst (getEnabledCount s)
  /\ fst (hasEnabledPlugins s) = (0 <? fst (getEnabledCount s))
  /\ (fst (hasEnabledPlugins s) = true -> fst (hasPlugins s) = true).
Proof.
  rewrite getActivePluginConfigs_result, getPluginCommandPaths_result,
          getEnabledCount_result, hasEnabledPlugins_result, !length_map.
  repeat split. intros Hpos. apply Nat.ltb_lt in Hpos.
  unfold hasPlugins. cbn [fst]. apply Nat.ltb_lt.
  change (array_get s (plugins s)) with (stored s).
  unfold loaded in Hpos. destruct (stored s); simpl in *; lia.
Qed.

Lemma filter_split_length {A : Type} (f g : A -> bool) (l : list A) :
  length (List.filter f l)
  = length (List.filter (fun x => f x && g x) l)
    + length (List.filter (fun x => f x && negb (g x)) l).
Proof.
  induction l as [|x l IH]; simpl; [done|].
  destruct (f x), (g x); simpl; lia.
Qed.

(** X10.  Every loaded plugin whose flag is set is counted exactly once:
    either it is active, or its identifier is in
    [getUnavailableEnabledPlugins].  The two numbers add up to the number of
    loaded plugins with [enabled] set, and no active plugin is reported as
    unavailable. *)
Theorem enabled_plugins_are_active_or_reported (s : State) :
  length (List.filter enabled (loaded s))
  = fst (getEnabledCount s) + length (fst (getUnavailableEnabledPlugins s))
  /\ forall p, In p (loaded s) -> enabled p = true ->
       (status p = available /\ In (mkConfig local (pluginPath p))
                                   (fst (getActivePluginConfigs s)))
       \/ (status p <> available /\ In (id p) (fst (getUnavailableEnabledPlugins s))).
Proof.
  rewrite getEnabledCount_result, getUnavailableEnabledPlugins_result,
          getActivePluginConfigs_result, length_map.
  split.
  - apply (filter_split_length enabled (fun p => status_eqb (status p) available)).
  - intros p Hp He. destruct (status_eqb (status p) available) eqn:Hst.
    + left. split; [by apply status_eqb_available|].
      apply in_map_iff. exists p. split; [done|]. apply filter_In. split; [done|].
      unfold is_active. by rewrite He, Hst.
    + right. split.
      * intros Heq. apply status_eqb_available in Heq. congruence.
      * apply in_map. apply filter_In. split; [done|]. by rewrite He, Hst.
Qed.

(** ** Plugins that are not available *)

Lemma filter_active_write_enabled (r : oref) (b : bool) (e : JsSet.t) (s : State)
      (p : ClaudianPlugin) (rs : list oref) :
  objects s !! r = Some p -> status p <> available ->
  List.filter is_active (deref (write_enabled r b (set_enabledPluginIds e s)) rs)
  = List.filter is_active (deref s rs).
Proof.
  intros Hp Hst.
  assert (Hdrop : forall b', is_active (with_enabled b' p) = false).
  { intros b'. unfold is_active. simpl.
    destruct (status_eqb (status p) available) eqn:Heq; [|apply andb_false_r].
    by apply status_eqb_available in Heq. }
  assert (Hdrop' : is_active p = false).
  { unfold is_active. destruct (status_eqb (status p) available) eqn:Heq;
      [by apply status_eqb_available in Heq | apply andb_false_r]. }
  induction rs as [|r' rs IH]; [done|]. cbn [deref].
  change (objects (write_enabled r b (set_enabledPluginIds e s)))
    with (alter (with_enabled b) r (objects s)).
  rewrite list_lookup_alter. case_decide as Hr.
  - subst r'. rewrite Hp. cbn [fmap option_fmap option_map List.filter].
    by rewrite Hdrop, Hdrop'.
  - destruct (objects s !! r'); cbn [List.filter]; by rewrite IH.
Qed.

Lemma incremental_unavailable_active (x : string) (s : State) :
  (forall p, In p (loaded s) -> id p = x -> status p <> available) ->
  List.filter is_active (loaded (snd (togglePlugin x s))) = List.filter is_active (loaded s)
  /\ List.filter is_active (loaded (snd (enablePlugin x s))) = List.filter is_active (loaded s)
  /\ List.filter is_active (loaded (snd (disablePlugin x s))) = List.filter is_active (loaded s).
Proof.
  intros Hx. destruct (find_by_id x s) as [r|] eqn:Hf.
  - destruct (find_by_id_Some x s r Hf) as (Hin & p & Hp & Hid).
    assert (Hst : status p <> available).
    { apply Hx; [|done]. apply In_deref. eauto. }
    rewrite (togglePlugin_found x s r Hf), (enablePlugin_found x s r Hf),
            (disablePlugin_found x s r Hf).
    destruct (holds s enabled r); repeat split; try done;
      by apply (filter_active_write_enabled r _ _ s p).
  - by rewrite (togglePlugin_not_found x s Hf), (enablePlugin_not_found x s Hf),
               (disablePlugin_not_found x s Hf).
Qed.

(** X11.  Toggling, enabling or disabling an identifier whose loaded
    plugins are all not available changes no view over the active plugins:
    configs, command paths, count, [hasEnabledPlugins] and the key stay as
    they are, although the Enabled-ID Set may change. *)
Theorem unavailable_plugins_never_become_active
        (localeCompare : string -> string -> Z) (x : string) (s : State) :
  (forall p, In p (loaded s) -> id p = x -> status p <> available) ->
  same_active_views localeCompare s (snd (togglePlugin x s))
  /\ same_active_views localeCompare s (snd (enablePlugin x s))
  /\ same_active_views localeCompare s (snd (disablePlugin x s)).
Proof.
  intros Hx. destruct (incremental_unavailable_active x s Hx) as (Ht & He & Hd).
  repeat split; by apply same_active_same_views.
Qed.

Lemma unavailable_plugins_never_become_active_witness :
  same_active_views codeUnitCompare unavailable_state
                    (snd (togglePlugin "invalid-plugin" unavailable_state))
  /\ same_active_views codeUnitCompare unavailable_state
                       (snd (enablePlugin "invalid-plugin" unavailable_state))
  /\ same_active_views codeUnitCompare unavailable_state
                       (snd (disablePlugin "invalid-plugin" unavailable_state)).
Proof.
  apply (unavailable_plugins_never_become_active codeUnitCompare).
  vm_compute. intros p [<-|[<-|[<-|[]]]]; simpl; intros; discriminate.
Defined.

(** ** Enabling an available plugin *)

Lemma In_active_views (s : State) (q : ClaudianPlugin) :
  In q (loaded s) -> is_active q = true ->
  In (mkConfig local (pluginPath q)) (fst (getActivePluginConfigs s))
  /\ In (mkCommandPath (name q) (installPath q)) (fst (getPluginCommandPaths s))
  /\ fst (hasEnabledPlugins s) = true.
Proof.
  intros Hq Ha.
  assert (Hin : In q (List.filter is_active (loaded s))) by (by apply filter_In).
  rewrite getActivePluginConfigs_result, getPluginCommandPaths_result,
          hasEnabledPlugins_result.
  split; [by apply (in_map (fun p => mkConfig local (pluginPath p)))|].
  split; [by apply (in_map (fun p => mkCommandPath (name p) (installPath p)))|].
  apply Nat.ltb_lt. destruct (List.filter is_active (loaded s)); simpl in *; [done | lia].
Qed.

(** X12.  With unique identifiers in the loaded list, [enablePlugin] on the
    identifier of a loaded plugin whose status is [available] makes that
    plugin active: afterwards [getActivePluginConfigs] has its manifest
    path, [getPluginCommandPaths] has its name with its install path, and
    [hasEnabledPlugins] is true. *)
Theorem enablePlugin_activates_an_available_plugin (p : ClaudianPlugin) (s : State) :
  unique_ids (loaded s) ->
  In p (loaded s) ->
  status p = available ->
  In (mkConfig local (pluginPath p))
     (fst (getActivePluginConfigs (snd (enablePlugin (id p) s))))
  /\ In (mkCommandPath (name p) (installPath p))
        (fst (getPluginCommandPaths (snd (enablePlugin (id p) s))))
  /\ fst (hasEnabledPlugins (snd (enablePlugin (id p) s))) = true.
Proof.
  intros Hu Hp Hst.
  destruct (find_by_id_loaded (id p) s (in_map id _ _ Hp)) as [r Hf].
  destruct (find_by_id_Some _ s r Hf) as (Hr & q & Hq & Hid).
  apply In_deref in Hp as (r' & Hr' & Hp).
  assert (r = r') as <- by (by apply (unique_ids_refs s (stored s) r r' q p)).
  assert (q = p) as -> by congruence.
  rewrite (enablePlugin_found _ s r Hf). unfold holds. rewrite Hp.
  destruct (enabled p) eqn:He.
  - apply (In_active_views s p).
    + apply In_deref. eauto.
    + unfold is_active. rewrite He, Hst. done.
  - apply (In_active_views _ (with_enabled true p)).
    + apply In_deref. exists r. split; [done|].
      change (alter (with_enabled true) r (objects s) !! r = Some (with_enabled true p)).
      by rewrite list_lookup_alter_eq, Hp.
    + unfold is_active. simpl. by rewrite Hst.
Qed.

Lemma enablePlugin_activates_an_available_plugin_witness :
  In (mkConfig local (pluginPath plugin_a))
     (fst (getActivePluginConfigs
             (snd (enablePlugin (id plugin_a)
                     (run codeUnitCompare session
                          (mock_manager [plugin_b; plugin_a; plugin_c]))))))
  /\ In (mkCommandPath (name plugin_a) (installPath plugin_a))
        (fst (getPluginCommandPaths
                (snd (enablePlugin (id plugin_a)
                        (run codeUnitCompare session
                             (mock_manager [plugin_b; plugin_a; plugin_c]))))))
  /\ fst (hasEnabledPlugins
            (snd (enablePlugin (id plugin_a)
                    (run codeUnitCompare session
                         (mock_manager [plugin_b; plugin_a; plugin_c]))))) = true.
Proof.
  apply enablePlugin_activates_an_available_plugin.
  - unfold unique_ids. compute_done.
  - vm_compute. right. by left.
  - reflexivity.
Defined.

(** ** No plugin loaded *)

(** X13.  While the stored list is empty (a fresh manager, or a registry
    that returned no plugin) every view is empty: no configs, no command
    paths, nothing reported unavailable, count [0], empty key, [hasPlugins]
    and [hasEnabledPlugins] false, [getPlugins] returns an empty array; and
    [togglePlugin], [enablePlugin], [disablePlugin] change nothing, whatever
    the identifier, and return the members of the Enabled-ID Set. *)
Theorem no_plugin_loaded (localeCompare : string -> string -> Z) (s : State) :
  stored s = [] ->
  (fst (getActivePluginConfigs s) = []
   /\ fst (getPluginCommandPaths s) = []
   /\ fst (getUnavailableEnabledPlugins s) = []
   /\ fst (getEnabledCount s) = 0
   /\ fst (getPluginsKey localeCompare s) = ""
   /\ fst (hasPlugins s) = false
   /\ fst (hasEnabledPlugins s) = false
   /\ array_get (snd (getPlugins s)) (fst (getPlugins s)) = [])
  /\ forall x,
       togglePlugin x s = (JsSet.to_array (enabledPluginIds s), s)
       /\ enablePlugin x s = (JsSet.to_array (enabledPluginIds s), s)
       /\ disablePlugin x s = (JsSet.to_array (enabledPluginIds s), s).
Proof.
  intros Hs.
  assert (Hl : loaded s = []) by (unfold loaded; by rewrite Hs).
  split.
  - rewrite getActivePluginConfigs_result, getPluginCommandPaths_result,
            getUnavailableEnabledPlugins_result, getEnabledCount_result,
            getPluginsKey_result, hasEnabledPlugins_result, Hl.
    repeat split.
    + unfold hasPlugins. cbn [fst]. change (array_get s (plugins s)) with (stored s).
      by rewrite Hs.
    + unfold getPlugins, Array_spread.
      rewrite (array_get_new_same (array_get s (plugins s)) s). exact Hs.
  - intros x.
    assert (Hf : find_by_id x s = None) by (apply find_by_id_None; rewrite Hl; simpl; tauto).
    unfold togglePlugin, enablePlugin, disablePlugin. by rewrite Hf.
Qed.

Lemma no_plugin_loaded_witness :
  (fst (getActivePluginConfigs (mock_manager [plugin_a])) = []
   /\ fst (getPluginCommandPaths (mock_manager [plugin_a])) = []
   /\ fst (getUnavailableEnabledPlugins (mock_manager [plugin_a])) = []
   /\ fst (getEnabledCount (mock_manager [plugin_a])) = 0
   /\ fst (getPluginsKey codeUnitCompare (mock_manager [plugin_a])) = ""
   /\ fst (hasPlugins (mock_manager [plugin_a])) = false
   /\ fst (hasEnabledPlugins (mock_manager [plugin_a])) = false
   /\ array_get (snd (getPlugins (mock_manager [plugin_a])))
                (fst (getPlugins (mock_manager [plugin_a]))) = [])
  /\ forall x,
       togglePlugin x (mock_manager [plugin_a])
         = (JsSet.to_array (enabledPluginIds (mock_manager [plugin_a])), mock_manager [plugin_a])
       /\ enablePlugin x (mock_manager [plugin_a])
         = (JsSet.to_array (enabledPluginIds (mock_manager [plugin_a])), mock_manager [plugin_a])
       /\ disablePlugin x (mock_manager [plugin_a])
         = (JsSet.to_array (enabledPluginIds (mock_manager [plugin_a])), mock_manager [plugin_a]).
Proof.
  apply (no_plugin_loaded codeUnitCompare). apply new_PluginManager_stored.
Defined.

(** ** The returned array and its way back *)

Lemma loadPlugins_keeps_enabledPluginIds_aux (answer : StorageAnswer) (s : State) :
  enabledPluginIds (loadPlugins answer s) = enabledPluginIds s.
Proof.
  unfold loadPlugins.
  by destruct (apply_enabled_state_fields
    (mkState (answer_objects answer) (answer_arrays answer)
             (answer_result answer) (enabledPluginIds s))) as (_ & _ & ->).
Qed.

Lemma exec_NoDup (localeCompare : string -> string -> Z) (c : Call) (s : State) :
  NoDup (enabledPluginIds s) -> NoDup (enabledPluginIds (exec localeCompare s c)).
Proof.
  intros Hs. destruct (is_query c) eqn:Hq.
  - destruct (query_unchanged localeCompare c s Hq) as ((_ & _ & He & _) & _).
    by rewrite He.
  - destruct c; try discriminate; cbn [exec].
    + unfold setEnabledPluginIds.
      destruct (apply_enabled_state_fields
                  (set_enabledPluginIds (JsSet.of_array ids) s)) as (_ & _ & He).
      rewrite He. apply NoDup_of_array.
    + by rewrite loadPlugins_keeps_enabledPluginIds_aux.
    + unfold togglePlugin. destruct (find_by_id pluginId s) as [r|]; [|done].
      destruct (holds s enabled r); simpl; [by apply NoDup_delete | by apply NoDup_add].
    + unfold enablePlugin. destruct (find_by_id pluginId s) as [r|]; [|done].
      destruct (holds s enabled r); simpl; [done | by apply NoDup_add].
    + unfold disablePlugin. destruct (find_by_id pluginId s) as [r|]; [|done].
      destruct (holds s enabled r); simpl; [by apply NoDup_delete | done].
Qed.

Lemma reachable_NoDup (localeCompare : string -> string -> Z)
      (o : list ClaudianPlugin) (a : list (list oref)) (calls : list Call) :
  NoDup (enabledPluginIds (run localeCompare calls (new_PluginManager o a))).
Proof.
  assert (H : forall s, NoDup (enabledPluginIds s) ->
                        NoDup (enabledPluginIds (run localeCompare calls s))).
  { induction calls as [|c calls IH]; intros s Hs; [done|].
    simpl. by apply IH, exec_NoDup. }
  apply H. constructor.
Qed.

Lemma fold_add_fresh (l acc : list string) :
  NoDup (acc ++ l)%list ->
  fold_left (fun s x => JsSet.add x s) l acc = (acc ++ l)%list.
Proof.
  revert acc. induction l as [|x l IH]; intros acc Hnd; simpl.
  - by rewrite app_nil_r.
  - assert (Hx : JsSet.has acc x = false).
    { destruct (JsSet.has acc x) eqn:Hh; [|done]. exfalso.
      apply has_true_iff, list_elem_of_In in Hh.
      apply NoDup_app in Hnd as (_ & Hdis & _). apply (Hdis x Hh). by left. }
    unfold JsSet.add at 2. rewrite Hx.
    rewrite IH; rewrite <- app_assoc; done.
Qed.

(** [new Set(Array.from(set))] is the set again, order included. *)
Lemma of_array_to_array (e : JsSet.t) :
  NoDup e -> JsSet.of_array (JsSet.to_array e) = e.
Proof. intros He. unfold JsSet.of_array, JsSet.to_array. by apply fold_add_fresh. Qed.

(** X14.  In any state a manager reaches, the array [togglePlugin],
    [enablePlugin] or [disablePlugin] returns lists no identifier twice,
    and it is a faithful copy of the Enabled-ID Set for persistence: given
    to [setEnabledPluginIds] of any manager, it makes that manager's set
    equal to the set the call left. *)
Theorem returned_array_restores_the_set
        (localeCompare : string -> string -> Z)
        (o : list ClaudianPlugin) (a : list (list oref))
        (calls : list Call) (x : string) (other : State) :
  let s := run localeCompare calls (new_PluginManager o a) in
  (NoDup (fst (togglePlugin x s))
   /\ enabledPluginIds (setEnabledPluginIds (fst (togglePlugin x s)) other)
      = enabledPluginIds (snd (togglePlugin x s)))
  /\ (NoDup (fst (enablePlugin x s))
      /\ enabledPluginIds (setEnabledPluginIds (fst (enablePlugin x s)) other)
         = enabledPluginIds (snd (enablePlugin x s)))
  /\ (NoDup (fst (disablePlugin x s))
      /\ enabledPluginIds (setEnabledPluginIds (fst (disablePlugin x s)) other)
         = enabledPluginIds (snd (disablePlugin x s))).
Proof.
  intros s.
  assert (Hset : forall ids, enabledPluginIds (setEnabledPluginIds ids other)
                             = JsSet.of_array ids).
  { intros ids. unfold setEnabledPluginIds.
    by destruct (apply_enabled_state_fields
                   (set_enabledPluginIds (JsSet.of_array ids) other)) as (_ & _ & ->). }
  destruct (incremental_result x s) as (Ht & He & Hd).
  pose proof (reachable_NoDup localeCompare o a (calls ++ [call_togglePlugin x])) as Nt.
  pose proof (reachable_NoDup localeCompare o a (calls ++ [call_enablePlugin x])) as Ne.
  pose proof (reachable_NoDup localeCompare o a (calls ++ [call_disablePlugin x])) as Nd.
  unfold run in Nt, Ne, Nd. rewrite fold_left_app in Nt, Ne, Nd.
  cbn [fold_left exec] in Nt, Ne, Nd. fold (run localeCompare calls) in Nt, Ne, Nd.
  fold s in Nt, Ne, Nd.
  rewrite !Hset, Ht, He, Hd.
  repeat split; try done; by apply of_array_to_array.
Qed.

(** ** A state that agrees with its set is a fixed point *)

Lemma with_enabled_same (p : ClaudianPlugin) : with_enabled (enabled p) p = p.
Proof. by destruct p. Qed.

Lemma apply_enabled_state_fixed (s : State) :
  consistent s -> apply_enabled_state s = s.
Proof.
  intros Hc. unfold consistent in Hc. rewrite Forall_forall in Hc.
  destruct (apply_enabled_state_fields s) as (Ha & Hp & He).
  apply state_eq; try done.
  apply list_eq. intros i. rewrite apply_enabled_state_lookup.
  destruct (objects s !! i) as [p|] eqn:Hi; [|done]. simpl.
  case_bool_decide as Hin; [|done]. f_equal. unfold restamp.
  rewrite <- (Hc p); [apply with_enabled_same|].
  apply list_elem_of_In, In_deref. exists i. split; [by apply list_elem_of_In | done].
Qed.

(** X15.  In any state a manager reaches while the registry returns lists
    with unique identifiers, two things change nothing at all: giving the
    array a call returned back to [setEnabledPluginIds], and a
    [loadPlugins] for which the registry hands back the array the manager
    already holds. *)
Theorem restoring_what_is_there_changes_nothing
        (localeCompare : string -> string -> Z)
        (o : list ClaudianPlugin) (a : list (list oref))
        (calls : list Call) (x : string) :
  Forall registry_unique calls ->
  let s := run localeCompare calls (new_PluginManager o a) in
  setEnabledPluginIds (fst (togglePlugin x s)) (snd (togglePlugin x s))
    = snd (togglePlugin x s)
  /\ setEnabledPluginIds (JsSet.to_array (enabledPluginIds s)) s = s
  /\ loadPlugins (same_array_again s) s = s.
Proof.
  intros Hall s.
  assert (Hfix : forall calls', Forall registry_unique calls' ->
            let s' := run localeCompare calls' (new_PluginManager o a) in
            setEnabledPluginIds (JsSet.to_array (enabledPluginIds s')) s' = s').
  { intros calls' Hall' s'. unfold setEnabledPluginIds.
    rewrite of_array_to_array by apply reachable_NoDup.
    replace (set_enabledPluginIds (enabledPluginIds s') s') with s' by (by destruct s').
    apply apply_enabled_state_fixed. by apply reachable_consistent. }
  split; [|split].
  - rewrite (proj1 (incremental_result x s)).
    assert (Hall' : Forall registry_unique (calls ++ [call_togglePlugin x])).
    { apply Forall_app. split; [done|]. by repeat constructor. }
    specialize (Hfix _ Hall'). unfold run in Hfix. rewrite fold_left_app in Hfix.
    exact Hfix.
  - by apply Hfix.
  - unfold loadPlugins, same_array_again. cbn [answer_objects answer_arrays answer_result].
    replace (mkState (objects s) (arrays s) (plugins s) (enabledPluginIds s)) with s
      by (by destruct s).
    apply apply_enabled_state_fixed. by apply reachable_consistent.
Qed.

Lemma restoring_what_is_there_changes_nothing_witness :
  let s := run codeUnitCompare session (mock_manager [plugin_b; plugin_a; plugin_c]) in
  setEnabledPluginIds (fst (togglePlugin "plugin-a" s)) (snd (togglePlugin "plugin-a" s))
    = snd (togglePlugin "plugin-a" s)
  /\ setEnabledPluginIds (JsSet.to_array (enabledPluginIds s)) s = s
  /\ loadPlugins (same_array_again s) s = s.
Proof.
  apply (restoring_what_is_there_changes_nothing codeUnitCompare).
  exact session_registry_unique.
Defined.

(** ** Cleaning up stale identifiers *)

Lemma In_forget (l l' : list ClaudianPlugin) (p' : ClaudianPlugin) :
  List.map forget_enabled l' = List.map forget_enabled l ->
  In p' l' -> exists p, In p l /\ id p = id p' /\ status p = status p'.
Proof.
  intros Heq Hp'. apply (in_map forget_enabled) in Hp'. rewrite Heq in Hp'.
  apply in_map_iff in Hp' as (p & Hf & Hp). exists p. split; [done|].
  split; [exact (f_equal id Hf) | exact (f_equal status Hf)].
Qed.

Lemma disablePlugin_forget (x : string) (s : State) :
  List.map forget_enabled (loaded (snd (disablePlugin x s)))
  = List.map forget_enabled (loaded s).
Proof.
  unfold disablePlugin. destruct (find_by_id x s) as [r|]; [|done].
  destruct (holds s enabled r); [apply write_enabled_forget | done].
Qed.

Lemma disablePlugin_report (x : string) (s : State) :
  consistent s -> unique_ids (loaded s) ->
  forall y, In y (fst (getUnavailableEnabledPlugins (snd (disablePlugin x s)))) ->
            In y (fst (getUnavailableEnabledPlugins s)) /\ y <> x.
Proof.
  intros Hc Hu y Hy.
  pose proof (disablePlugin_consistent x s Hu Hc) as Hc'.
  apply (unavailable_enabled_in_consistent_state _ y Hc') in Hy
    as (Hset & p' & Hp' & Hid & Hst).
  destruct (In_forget _ _ p' (disablePlugin_forget x s) Hp') as (p & Hp & Hidp & Hstp).
  assert (Hboth : JsSet.has (enabledPluginIds s) y = true /\ y <> x).
  { destruct (find_by_id x s) as [r|] eqn:Hf.
    - rewrite (disablePlugin_found x s r Hf) in Hset.
      destruct (holds s enabled r) eqn:He.
      + cbn [enabledPluginIds write_enabled set_objects set_enabledPluginIds] in Hset.
        rewrite has_delete in Hset. apply andb_true_iff in Hset as [Hne Hin].
        split; [done|]. intros ->. by rewrite String.eqb_refl in Hne.
      + split; [done|]. intros ->.
        pose proof (consistent_first_consistent s Hc x r Hf). congruence.
    - rewrite (disablePlugin_not_found x s Hf) in Hset. split; [done|]. intros ->.
      apply find_by_id_None in Hf. apply Hf. rewrite <- Hid, <- Hidp. by apply in_map. }
  destruct Hboth as [Hin Hne]. split; [|done].
  apply (unavailable_enabled_in_consistent_state _ y Hc). split; [done|].
  exists p. repeat split; [done | congruence | congruence].
Qed.

Lemma disable_all_facts (l : list string) (s : State) :
  consistent s -> unique_ids (loaded s) ->
  (forall x, In x l -> forall p, In p (loaded s) -> id p = x -> status p <> available) ->
  consistent (disable_all l s)
  /\ List.map forget_enabled (loaded (disable_all l s)) = List.map forget_enabled (loaded s)
  /\ List.filter is_active (loaded (disable_all l s)) = List.filter is_active (loaded s)
  /\ forall y, In y (fst (getUnavailableEnabledPlugins (disable_all l s))) ->
               In y (fst (getUnavailableEnabledPlugins s)) /\ ~ In y l.
Proof.
  revert s. induction l as [|x l IH]; intros s Hc Hu Hl.
  - simpl. repeat split; try done. tauto.
  - cbn [disable_all fold_left]. fold (disable_all l (snd (disablePlugin x s))).
    set (s1 := snd (disablePlugin x s)).
    assert (Hc1 : consistent s1) by (by apply disablePlugin_consistent).
    assert (Hu1 : unique_ids (loaded s1)).
    { unfold unique_ids, s1. by rewrite disablePlugin_ids. }
    assert (Hf1 : List.map forget_enabled (loaded s1) = List.map forget_enabled (loaded s))
      by apply disablePlugin_forget.
    assert (Ha1 : List.filter is_active (loaded s1) = List.filter is_active (loaded s)).
    { apply (incremental_unavailable_active x s). apply Hl. by left. }
    assert (Hl1 : forall z, In z l -> forall p, In p (loaded s1) -> id p = z ->
                            status p <> available).
    { intros z Hz p1 Hp1 Hid1.
      destruct (In_forget _ _ p1 Hf1 Hp1) as (p & Hp & Hidp & Hstp).
      rewrite <- Hstp. apply (Hl z); [by right | done | congruence]. }
    destruct (IH s1 Hc1 Hu1 Hl1) as (Hc' & Hf' & Ha' & Hr').
    split; [done|]. split; [congruence|]. split; [congruence|].
    intros y Hy. destruct (Hr' y Hy) as [Hy1 Hnl].
    destruct (disablePlugin_report x s Hc Hu y Hy1) as [Hys Hne].
    split; [done|]. intros [->|Hin]; done.
Qed.

(** X16.  Cleaning up, in any state a manager reaches while the registry
    returns lists with unique identifiers: after [disablePlugin] of every
    identifier [getUnavailableEnabledPlugins] reports, it reports nothing,
    and no view over the active plugins has changed (same configs, command
    paths, count and key). *)
Theorem disabling_the_reported_identifiers_cleans_up
        (localeCompare : string -> string -> Z)
        (o : list ClaudianPlugin) (a : list (list oref)) (calls : list Call) :
  Forall registry_unique calls ->
  let s := run localeCompare calls (new_PluginManager o a) in
  let s' := disable_all (fst (getUnavailableEnabledPlugins s)) s in
  fst (getUnavailableEnabledPlugins s') = []
  /\ same_active_views localeCompare s s'.
Proof.
  intros Hall s s'.
  destruct (new_PluginManager_consistent o a) as [Hu0 Hc0].
  destruct (run_consistent localeCompare calls _ Hall Hu0 Hc0) as [Hu Hc].
  fold s in Hu, Hc.
  assert (Hl : forall x, In x (fst (getUnavailableEnabledPlugins s)) ->
                 forall p, In p (loaded s) -> id p = x -> status p <> available).
  { intros x Hx p Hp Hid.
    apply (unavailable_enabled_in_consistent_state s x Hc) in Hx
      as (_ & q & Hq & Hidq & Hst).
    assert (p = q) as ->
      by (apply (NoDup_map_inj_on id (loaded s)); [exact Hu | done | done | congruence]).
    done. }
  destruct (disable_all_facts _ s Hc Hu Hl) as (_ & _ & Ha & Hr). fold s' in Ha, Hr.
  split; [|by apply same_active_same_views].
  destruct (fst (getUnavailableEnabledPlugins s')) as [|y l] eqn:Hrep; [done|].
  exfalso. destruct (Hr y (or_introl eq_refl)) as [Hin Hnot]. done.
Qed.

Lemma disabling_the_reported_identifiers_cleans_up_witness :
  let s := run codeUnitCompare session (mock_manager [plugin_b; plugin_a; plugin_c]) in
  let s' := disable_all (fst (getUnavailableEnabledPlugins s)) s in
  fst (getUnavailableEnabledPlugins s') = []
  /\ same_active_views codeUnitCompare s s'.
Proof.
  apply (disabling_the_reported_identifiers_cleans_up codeUnitCompare).
  exact session_registry_unique.
Defined.

(** ** Disabling *)

(** X17.  With unique identifiers in the loaded list, after
    [disablePlugin x] no loaded plugin with identifier [x] has its flag
    set, so none is active and none is reported unavailable. *)
Theorem disablePlugin_clears_the_flag (x : string) (s : State) :
  unique_ids (loaded s) ->
  Forall (fun q => id q = x -> enabled q = false) (loaded (snd (disablePlugin x s))).
Proof.
  intros Hu. apply Forall_forall. intros q Hq Hid.
  apply list_elem_of_In, In_deref in Hq as (r' & Hr' & Hq).
  destruct (find_by_id x s) as [r|] eqn:Hf.
  - destruct (find_by_id_Some x s r Hf) as (Hr & p & Hp & Hidp).
    rewrite (disablePlugin_found x s r Hf) in Hr', Hq.
    destruct (holds s enabled r) eqn:He.
    + change (alter (with_enabled false) r (objects s) !! r' = Some q) in Hq.
      rewrite list_lookup_alter in Hq. case_decide as Hrr.
      * rewrite Hp in Hq. simpl in Hq. by injection Hq as <-.
      * exfalso. apply Hrr.
        apply (unique_ids_refs s (stored s) r r' p q); try done. congruence.
    + assert (r = r') as <-
        by (apply (unique_ids_refs s (stored s) r r' p q); try done; congruence).
      unfold holds in He. rewrite Hp in He. congruence.
  - rewrite (disablePlugin_not_found x s Hf) in Hr', Hq.
    apply find_by_id_None in Hf. exfalso. apply Hf. rewrite <- Hid.
    apply in_map, In_deref. eauto.
Qed.

Lemma disablePlugin_clears_the_flag_witness :
  Forall (fun q => id q = "plugin-b" -> enabled q = false)
         (loaded (snd (disablePlugin "plugin-b"
                         (run codeUnitCompare session
                              (mock_manager [plugin_b; plugin_a; plugin_c]))))).
Proof.
  apply disablePlugin_clears_the_flag. unfold unique_ids. compute_done.
Defined.

(** ** The array of [getPlugins] shares its records *)

Lemma not_load_keeps_arrays (localeCompare : string -> string -> Z) (c : Call)
      (s : State) (a : aref) :
  (forall answer, c <> call_loadPlugins answer) ->
  a < length (arrays s) ->
  array_get (exec localeCompare s c) a = array_get s a
  /\ stored (exec localeCompare s c) = stored s.
Proof.
  intros Hc Ha. destruct (is_query c) eqn:Hq.
  - destruct (query_unchanged localeCompare c s Hq) as (Hun & Hst).
    split; [by apply unchanged_array_get | done].
  - destruct c; try discriminate; cbn [exec].
    + unfold setEnabledPluginIds.
      split; [|by rewrite apply_enabled_state_stored].
      unfold array_get.
      by destruct (apply_enabled_state_fields
                     (set_enabledPluginIds (JsSet.of_array ids) s)) as (-> & _ & _).
    + by destruct (Hc answer).
    + destruct (flip_fields pluginId s) as ((Har & Hpl) & _).
      unfold stored, array_get. by rewrite Har, Hpl.
    + destruct (flip_fields pluginId s) as (_ & (Har & Hpl) & _).
      unfold stored, array_get. by rewrite Har, Hpl.
    + destruct (flip_fields pluginId s) as (_ & _ & (Har & Hpl)).
      unfold stored, array_get. by rewrite Har, Hpl.
Qed.

(** X18.  [getPlugins] copies the array, not the records: after any later
    call other than [loadPlugins], the array it returned still holds the
    stored elements, and reading the records through it shows the manager's
    current loaded list, flags included. *)
Theorem getPlugins_result_shares_the_records
        (localeCompare : string -> string -> Z) (c : Call) (s : State) :
  (forall answer, c <> call_loadPlugins answer) ->
  let copy := fst (getPlugins s) in
  let s1 := snd (getPlugins s) in
  deref s1 (array_get s1 copy) = loaded s
  /\ deref (exec localeCompare s1 c) (array_get (exec localeCompare s1 c) copy)
     = loaded (exec localeCompare s1 c).
Proof.
  intros Hc copy s1.
  assert (Hcopy : array_get s1 copy = stored s)
    by apply (array_get_new_same (array_get s (plugins s)) s).
  assert (Hst1 : stored s1 = stored s) by apply getPlugins_unchanged.
  split.
  - rewrite Hcopy. by apply deref_objects.
  - assert (Hlt : copy < length (arrays s1)).
    { unfold copy, s1, getPlugins, Array_spread, array_new. simpl.
      rewrite length_app. simpl. lia. }
    destruct (not_load_keeps_arrays localeCompare c s1 copy Hc Hlt) as [Ha Hs].
    unfold loaded. by rewrite Ha, Hs, Hcopy, Hst1.
Qed.

Lemma getPlugins_result_shares_the_records_witness :
  let copy := fst (getPlugins scenario_state) in
  let s1 := snd (getPlugins scenario_state) in
  deref s1 (array_get s1 copy) = loaded scenario_state
  /\ deref (exec codeUnitCompare s1 (call_togglePlugin "p@m"))
           (array_get (exec codeUnitCompare s1 (call_togglePlugin "p@m")) copy)
     = loaded (exec codeUnitCompare s1 (call_togglePlugin "p@m")).
Proof.
  apply (getPlugins_result_shares_the_records codeUnitCompare). intros answer. discriminate.
Defined.

(** ** Toggling an available plugin *)

Lemma deref_ext (s s' : State) (rs : list oref) :
  (forall r, In r rs -> objects s' !! r = objects s !! r) ->
  deref s' rs = deref s rs.
Proof.
  intros H. rewrite <- (map_id (deref s rs)). apply deref_pointwise.
  intros r Hr. rewrite (H r Hr). by destruct (objects s !! r).
Qed.

(** With unique identifiers, writing the flag of one stored record changes
    one element of the loaded list, in place. *)
Lemma loaded_split (r : oref) (b : bool) (e : JsSet.t) (s : State)
      (p : ClaudianPlugin) (rs : list oref) :
  unique_ids (deref s rs) -> objects s !! r = Some p -> In r rs ->
  exists l1 l2,
    deref s rs = (l1 ++ p :: l2)%list
    /\ deref (write_enabled r b (set_enabledPluginIds e s)) rs
       = (l1 ++ with_enabled b p :: l2)%list.
Proof.
  intros Hu Hp. induction rs as [|r' rs IH]; intros Hin; [done|].
  cbn [deref] in *.
  change (objects (write_enabled r b (set_enabledPluginIds e s)))
    with (alter (with_enabled b) r (objects s)).
  rewrite list_lookup_alter. case_decide as Hr.
  - subst r'. rewrite Hp in *. cbn [fmap option_fmap option_map].
    exists [], (deref s rs). split; [done|]. simpl. f_equal.
    apply deref_ext. intros r'' Hr''.
    change (alter (with_enabled b) r (objects s) !! r'' = objects s !! r'').
    apply list_lookup_alter_ne. intros ->.
    unfold unique_ids in Hu. simpl in Hu. apply NoDup_cons in Hu as [Hnot _].
    apply Hnot. apply list_elem_of_In, in_map, In_deref. eauto.
  - destruct Hin as [->|Hin]; [done|].
    destruct (objects s !! r') as [q|] eqn:Hq.
    + unfold unique_ids in Hu. simpl in Hu. apply NoDup_cons in Hu as [_ Hu].
      destruct (IH Hu Hin) as (l1 & l2 & H1 & H2).
      exists (q :: l1), l2. simpl. by rewrite H1, H2.
    + by apply IH.
Qed.

Lemma string_length_append (a b : string) :
  String.length (a ++ b) = String.length a + String.length b.
Proof. induction a as [|c a IH]; simpl; [done | by rewrite IH]. Qed.

(** The length of a key: one more than its length is the sum, over the
    entries, of the entry's length plus one. *)
Lemma key_length (l : list string) :
  String.length (String.concat "|" l) = pred (list_sum (List.map (fun x => S (String.length x)) l)).
Proof.
  induction l as [|x l IH]; [done|].
  destruct l as [|y l]; [simpl; lia|].
  change (String.concat "|" (x :: y :: l))
    with (x ++ "|" ++ String.concat "|" (y :: l))%string.
  rewrite !string_length_append, IH. simpl. lia.
Qed.

Lemma key_entry_length (p : ClaudianPlugin) : 1 <= String.length (key_entry p).
Proof. unfold key_entry. rewrite !string_length_append. simpl. lia. Qed.

Lemma spec_pluginsKey_length (localeCompare : string -> string -> Z)
      (ps : list ClaudianPlugin) :
  String.length (spec_pluginsKey localeCompare ps)
  = pred (list_sum (List.map (fun p => S (String.length (key_entry p)))
                             (spec_activePlugins ps))).
Proof.
  unfold spec_pluginsKey. rewrite key_length, map_map.
  f_equal. apply Permutation_list_sum, Permutation_map.
  apply stable_sort_Permutation.
Qed.

Lemma eqb_false_of_length (a b : string) :
  String.length a <> String.length b -> String.eqb a b = false.
Proof. intros H. apply String.eqb_neq. congruence. Qed.

(** X19.  With unique identifiers in the loaded list, [togglePlugin] on the
    identifier of a loaded plugin whose status is [available] moves
    [getEnabledCount] by exactly one (down when the plugin's flag was set,
    up when it was not) and always changes [getPluginsKey]. *)
Theorem togglePlugin_of_an_available_plugin
        (localeCompare : string -> string -> Z) (p : ClaudianPlugin) (s : State) :
  unique_ids (loaded s) ->
  In p (loaded s) ->
  status p = available ->
  fst (getEnabledCount (snd (togglePlugin (id p) s))) + (if enabled p then 1 else 0)
    = fst (getEnabledCount s) + (if enabled p then 0 else 1)
  /\ String.eqb (fst (getPluginsKey localeCompare (snd (togglePlugin (id p) s))))
                (fst (getPluginsKey localeCompare s)) = false.
Proof.
  intros Hu Hp Hst.
  destruct (find_by_id_loaded (id p) s (in_map id _ _ Hp)) as [r Hf].
  destruct (find_by_id_Some _ s r Hf) as (Hr & q & Hq & Hid).
  apply In_deref in Hp as (r' & Hr' & Hp).
  assert (r = r') as <- by (by apply (unique_ids_refs s (stored s) r r' q p)).
  assert (q = p) as -> by congruence. clear Hq Hid Hr'.
  rewrite (togglePlugin_found _ s r Hf). unfold holds at 1 2. rewrite Hp.
  rewrite !getEnabledCount_result, !getPluginsKey_result.
  assert (Hact : forall b, is_active (with_enabled b p) = b).
  { intros b. unfold is_active. simpl. rewrite Hst. apply andb_true_r. }
  assert (Hactp : is_active p = enabled p).
  { unfold is_active. rewrite Hst. apply andb_true_r. }
  destruct (enabled p) eqn:He.
  - destruct (loaded_split r false (JsSet.delete (id p) (enabledPluginIds s)) s p
                (stored s) Hu Hp Hr) as (l1 & l2 & H1 & H2).
    change (deref ?s' (stored s)) with (loaded s') in H1, H2.
    split.
    + rewrite H1, H2, !List.filter_app. cbn [List.filter]. rewrite Hact, Hactp.
      rewrite !length_app. simpl. lia.
    + apply eqb_false_of_length. rewrite !spec_pluginsKey_length.
      unfold spec_activePlugins.
      change (fun p0 => enabled p0 && status_eqb (status p0) available) with is_active.
      rewrite H1, H2, !List.filter_app. cbn [List.filter]. rewrite Hact, Hactp.
      rewrite !map_app, !list_sum_app. cbn [List.map].
      pose proof (key_entry_length p).
      set (k := String.length (key_entry p)) in *. simpl list_sum. lia.
  - destruct (loaded_split r true (JsSet.add (id p) (enabledPluginIds s)) s p
                (stored s) Hu Hp Hr) as (l1 & l2 & H1 & H2).
    change (deref ?s' (stored s)) with (loaded s') in H1, H2.
    split.
    + rewrite H1, H2, !List.filter_app. cbn [List.filter]. rewrite Hact, Hactp.
      rewrite !length_app. simpl. lia.
    + apply eqb_false_of_length. rewrite !spec_pluginsKey_length.
      unfold spec_activePlugins.
      change (fun p0 => enabled p0 && status_eqb (status p0) available) with is_active.
      rewrite H1, H2, !List.filter_app. cbn [List.filter]. rewrite Hact, Hactp.
      rewrite !map_app, !list_sum_app. cbn [List.map].
      assert (key_entry (with_enabled true p) = key_entry p) as -> by done.
      pose proof (key_entry_length p).
      set (k := String.length (key_entry p)) in *. simpl list_sum. lia.
Qed.

Lemma togglePlugin_of_an_available_plugin_witness :
  fst (getEnabledCount (snd (togglePlugin (id enabled_a)
                               (loaded_in_order [enabled_b; enabled_a]))))
    + (if enabled enabled_a then 1 else 0)
    = fst (getEnabledCount (loaded_in_order [enabled_b; enabled_a]))
      + (if enabled enabled_a then 0 else 1)
  /\ String.eqb (fst (getPluginsKey codeUnitCompare
                        (snd (togglePlugin (id enabled_a)
                                (loaded_in_order [enabled_b; enabled_a])))))
                (fst (getPluginsKey codeUnitCompare (loaded_in_order [enabled_b; enabled_a])))
     = false.
Proof.
  apply togglePlugin_of_an_available_plugin.
  - unfold unique_ids. compute_done.
  - vm_compute. right. by left.
  - reflexivity.
Defined.

(** ** Enabled state across reloads *)

(** X20.  The enabled state survives a reload.  In any state a manager
    reaches, for the identifier [x] of a loaded plugin: after
    [enablePlugin x] and a [loadPlugins], every plugin of the new list with
    identifier [x] has its flag set, whatever flag the registry supplied;
    after [disablePlugin x] and a [loadPlugins], none has. *)
Theorem enabled_state_survives_a_reload
        (localeCompare : string -> string -> Z)
        (o : list ClaudianPlugin) (a : list (list oref))
        (calls : list Call) (x : string) (answer : StorageAnswer) :
  In x (List.map id (loaded (run localeCompare calls (new_PluginManager o a)))) ->
  Forall (fun q => id q = x -> enabled q = true)
         (loaded (loadPlugins answer
                    (snd (enablePlugin x (run localeCompare calls (new_PluginManager o a))))))
  /\ Forall (fun q => id q = x -> enabled q = false)
            (loaded (loadPlugins answer
                       (snd (disablePlugin x (run localeCompare calls (new_PluginManager o a)))))).
Proof.
  intros Hx.
  destruct (incremental_membership x _ (reachable_first_consistent localeCompare o a calls) Hx)
    as (He & Hd & _).
  assert (Hload : forall s' q, In q (loaded (loadPlugins answer s')) ->
                    enabled q = JsSet.has (enabledPluginIds s') (id q)).
  { intros s' q Hq. unfold loadPlugins in Hq. rewrite apply_enabled_state_loaded in Hq.
    apply in_map_iff in Hq as (q0 & <- & _). done. }
  split; apply Forall_forall; intros q Hq Hid; apply list_elem_of_In, Hload in Hq;
    rewrite Hq, Hid; done.
Qed.

Lemma enabled_state_survives_a_reload_witness :
  Forall (fun q => id q = "plugin-a" -> enabled q = true)
         (loaded (loadPlugins (createMockStorage [plugin_b; plugin_a; plugin_c])
                    (snd (enablePlugin "plugin-a"
                            (run codeUnitCompare session
                                 (mock_manager [plugin_b; plugin_a; plugin_c]))))))
  /\ Forall (fun q => id q = "plugin-a" -> enabled q = false)
            (loaded (loadPlugins (createMockStorage [plugin_b; plugin_a; plugin_c])
                       (snd (disablePlugin "plugin-a"
                               (run codeUnitCompare session
                                    (mock_manager [plugin_b; plugin_a; plugin_c])))))).
Proof.
  apply (enabled_state_survives_a_reload codeUnitCompare).
  vm_compute. right. by left.
Defined.
